(** * firehose_exporter: the HTTP start-stop and value-metrics collectors

    A shallow embedding of the two collectors of package [collectors]
    (http_start_stop_collector.go and value_metrics_collector.go) and the
    properties of the aggregation tree and of the emitted observations.

    Layout: the Go runtime notions the collectors rely on ([Go], [strconv]),
    the record types of package [metrics], the interface of the quantile
    sketch ([quantile]), the exposition boundary ([prometheus]), the name
    normalisation ([utils]), then the collectors themselves and, last, the
    lemmas and theorems. *)

From Stdlib Require Import ZArith NArith Ascii String Floats Lia.
From Stdlib Require Import DecimalString DecimalPos DecimalZ.
From stdpp Require Import ssreflect base option list gmap strings.

Set Warnings "-inexact-float,-rewrite-rw".
Local Open Scope Z_scope.

(** ** Go runtime *)

Module Go.

(** Conversion to [int64] (and to [int], which is 64 bits wide on the
    targets the exporter is built for): two's complement wrap-around. *)
Definition int64 (z : Z) : Z := (z + 2 ^ 63) mod 2 ^ 64 - 2 ^ 63.

(** Conversion to [uint64]. *)
Definition uint64 (z : Z) : Z := z mod 2 ^ 64.

(** [float64(x)] for an integer [x]: the nearest binary64 value, ties to
    even. *)
Definition float64 (z : Z) : float :=
  SF2Prim (SpecFloat.binary_normalize FloatOps.prec FloatOps.emax z 0 false).

(** The largest length a slice can have ([math.MaxInt]). *)
Definition MaxInt : Z := 2 ^ 63 - 1.

(** A call either returns or panics; a panic unwinds the whole call. *)
Inductive Outcome (A : Type) : Type :=
| Done (a : A)
| Panic (err : string).
Arguments Done {A} a.
Arguments Panic {A} err.

#[global] Instance Outcome_ret : MRet Outcome := λ A a, Done a.
#[global] Instance Outcome_bind : MBind Outcome := λ A B f x,
  match x with
  | Done a => f a
  | Panic err => Panic err
  end.

(** [for _, x := range xs { body }] where the body may panic and sends
    values of type [B] on a channel. *)
Fixpoint rangeSlice {A B : Type} (body : A → Outcome (list B)) (xs : list A)
  : Outcome (list B) :=
  match xs with
  | [] => Done []
  | x :: xs' =>
      out ← body x;
      rest ← rangeSlice body xs';
      mret (out ++ rest)
  end.

(** [for k, v := range m { body }] over a map whose values are pointers:
    the body receives the node [v] points to, may update it in place, sends
    values on a channel and may panic. The result is the list of entries
    with their nodes after the walk and everything that was sent. *)
Fixpoint rangeEntries {K V B : Type} (body : K → V → Outcome (V * list B))
    (entries : list (K * V)) : Outcome (list (K * V) * list B) :=
  match entries with
  | [] => Done ([], [])
  | (k, v) :: entries' =>
      r ← body k v;
      rest ← rangeEntries body entries';
      mret ((k, r.1) :: rest.1, r.2 ++ rest.2)
  end.

Definition rangeMap {K V B : Type} `{Countable K}
    (body : K → V → Outcome (V * list B)) (m : gmap K V)
  : Outcome (gmap K V * list B) :=
  r ← rangeEntries body (map_to_list m);
  mret (list_to_map r.1, r.2).

End Go.

Module strconv.

(** [strconv.Itoa]: the decimal numeral of an integer, with a leading minus
    sign for a negative one. *)
Definition Itoa (i : Z) : string := NilZero.string_of_int (Z.to_int i).

End strconv.

Module utf8.

#[local] Open Scope N_scope.

Definition between (lo hi b : N) : bool := (lo <=? b) && (b <=? hi).

Definition continuation (a : ascii) : bool := between 0x80 0xBF (N_of_ascii a).

(** [utf8.ValidString]: the bytes of the string are a sequence of UTF-8
    encodings of one to four bytes, none of them truncated or overlong,
    none of a surrogate half and none above U+10FFFF. *)
Fixpoint ValidString (s : string) : bool :=
  match s with
  | EmptyString => true
  | String a0 s1 =>
      let b0 := N_of_ascii a0 in
      if (b0 <? 0x80) then ValidString s1 else
      match s1 with
      | EmptyString => false
      | String a1 s2 =>
          let b1 := N_of_ascii a1 in
          if between 0xC2 0xDF b0 then continuation a1 && ValidString s2 else
          match s2 with
          | EmptyString => false
          | String a2 s3 =>
              if between 0xE0 0xEF b0 then
                between (if (b0 =? 0xE0) then 0xA0 else 0x80)
                        (if (b0 =? 0xED) then 0x9F else 0xBF) b1 &&
                continuation a2 && ValidString s3
              else
              match s3 with
              | EmptyString => false
              | String a3 s4 =>
                  between 0xF0 0xF4 b0 &&
                  between (if (b0 =? 0xF0) then 0x90 else 0x80)
                          (if (b0 =? 0xF4) then 0x8F else 0xBF) b1 &&
                  continuation a2 && continuation a3 && ValidString s4
              end
          end
      end
  end.

End utf8.

(** ** Package metrics: the records handed over by the store *)

Module metrics.

(** Modelled from the spec: the record of a value metric, declared in
    package [metrics], which is not among the sources. The collectors read
    exactly these fields. *)
Record ValueMetric : Type := {
  Origin : string;
  Deployment : string;
  Job : string;
  Index : string;
  IP : string;
  Name : string;
  Value : float;
  Unit : string;
  Tags : gmap string string
}.

(** Modelled from the spec: the record of an HTTP start-stop pair, declared
    in package [metrics]. [StatusCode] is an [int32] (it is the key of a
    [map[int32]int64]), the other numbers are [int64]. *)
Record HttpStartStop : Type := {
  ApplicationId : string;
  InstanceId : string;
  Uri : string;
  Method : string;
  StatusCode : Z;
  ContentLength : Z;
  ClientDuration : Z;
  ServerDuration : Z
}.

(** Modelled from the spec: the store, of which the collectors use the two
    getters; each returns the current batch. *)
Record Store : Type := {
  GetValueMetrics : list ValueMetric;
  GetHttpStartStops : list HttpStartStop
}.

End metrics.

(** ** Package quantile: the streaming quantile sketch *)

Module quantile.

(** Modelled from the spec: one entry of the summary, an observed value
    with its rank increment [G] and its rank uncertainty [Delta]. The
    collectors read [Value]. *)
Record Sample : Type := {
  Value : float;
  G : Z;
  Delta : Z
}.

(** The methods the collectors call on a [*quantile.Stream]. Every method
    has the stream as its receiver and may reorganise it, so each one
    returns the stream it leaves behind. *)
Class Stream (S : Type) : Type := {
  NewTargeted : list float → S;
  Insert : S → float → S;
  Samples : S → list Sample * S;
  Query : S → float → float * S;
  Count : S → Z * S
}.

(** Modelled from the spec: [Count()] is the exact number of [Insert]
    calls, whatever was compressed; it is returned as an [int]. *)
Class Counting (S : Type) `{!Stream S} : Prop := {
  Count_NewTargeted quantiles : (Count (NewTargeted quantiles)).1 = 0;
  Count_Insert s v : (Count (Insert s v)).1 = Go.int64 ((Count s).1 + 1)
}.

(** What a caller can observe of a stream without inserting. *)
Definition observes {S : Type} `{!Stream S} (s s' : S) : Prop :=
  (Count s).1 = (Count s').1 ∧ ∀ q, (Query s q).1 = (Query s' q).1.

(** Modelled from the spec: a stream is mutated only by [Insert]; the
    other methods may reorganise it but leave its answers as they were. *)
Class NonDestructive (S : Type) `{!Stream S} : Prop := {
  Samples_observes s : observes (Samples s).2 s;
  Query_observes s q : observes (Query s q).2 s;
  Count_observes s : observes (Count s).2 s
}.

(** Modelled from the spec: the sketch itself, whose package
    (github.com/bmizerany/perks/quantile) is imported by the collectors and
    is not among the sources. The spec describes it as an ordered sequence
    of (value, g, delta) triples for a fixed set of target quantiles, with
    [Count()] the total number of inserts, [Query] returning the value at
    the estimated rank φ·N and 0.0 on an empty sketch, and [Samples()]
    exposing the current summary. The compression pass, which the spec lets
    [Insert] trigger above an unstated threshold, is not triggered here. *)
Record Summary : Type := {
  targets : list float;
  n : Z;
  l : list Sample
}.

(** Modelled from the spec: a fresh sketch for the given target quantiles. *)
Definition Summary_NewTargeted (quantiles : list float) : Summary :=
  {| targets := quantiles; n := 0; l := [] |}.

(** Modelled from the spec: the sequence of triples is kept ordered by
    value. *)
Fixpoint insertOrdered (x : Sample) (xs : list Sample) : list Sample :=
  match xs with
  | [] => [x]
  | y :: ys =>
      if PrimFloat.ltb (Value x) (Value y) then x :: y :: ys
      else y :: insertOrdered x ys
  end.

(** Modelled from the spec: [Insert] records one observation. *)
Definition Summary_Insert (s : Summary) (v : float) : Summary :=
  {| targets := targets s;
     n := Go.int64 (n s + 1);
     l := insertOrdered {| Value := v; G := 1; Delta := 0 |} (l s) |}.

(** Modelled from the spec: the value at rank [t], that is the first entry
    whose accumulated rank reaches [t], the last entry when none does. *)
Fixpoint atRank (t : float) (r : Z) (p : Sample) (xs : list Sample) : float :=
  match xs with
  | [] => Value p
  | c :: xs' =>
      if PrimFloat.leb t (Go.float64 (r + G p)) then Value p
      else atRank t (r + G p) c xs'
  end.

(** Modelled from the spec: [Query] returns the value at the estimated
    rank φ·N, and 0.0 on an empty sketch. *)
Definition Summary_Query (s : Summary) (q : float) : float * Summary :=
  match l s with
  | [] => (0%float, s)
  | p :: xs => (atRank (q * Go.float64 (n s))%float 0 p xs, s)
  end.

(** Modelled from the spec: [Samples] exposes the current summary. *)
Definition Summary_Samples (s : Summary) : list Sample * Summary := (l s, s).

(** Modelled from the spec: [Count] is the number of inserts. *)
Definition Summary_Count (s : Summary) : Z * Summary := (Go.int64 (n s), s).

#[global] Instance Summary_Stream : Stream Summary := {|
  NewTargeted := Summary_NewTargeted;
  Insert := Summary_Insert;
  Samples := Summary_Samples;
  Query := Summary_Query;
  Count := Summary_Count
|}.

End quantile.

(** ** Package prometheus: the exposition boundary *)

Module prometheus.

Inductive ValueType : Type := CounterValue | GaugeValue | UntypedValue.

(** [prometheus.Labels] is a [map[string]string]. *)
Abbreviation Labels := (gmap string string).

Record Desc : Type := {
  fqName : string;
  help : string;
  variableLabels : list string;
  constLabels : Labels
}.

Definition NewDesc (fqName help : string) (variableLabels : list string)
    (constLabels : Labels) : Desc :=
  {| fqName := fqName; help := help; variableLabels := variableLabels;
     constLabels := constLabels |}.

(** An observation handed to the exposition boundary: a counter or gauge
    sample, or a summary with its count, sum and quantile estimates (the
    [map[float64]float64] literal, in the order it is written). *)
Inductive Metric : Type :=
| constMetric (desc : Desc) (valType : ValueType) (value : float)
    (labelValues : list string)
| constSummary (desc : Desc) (count : Z) (sum : float)
    (quantiles : list (float * float)) (labelValues : list string).

(** [Desc()] of the [Metric] interface, and the label values an
    observation was constructed with. *)
Definition metricDesc (m : Metric) : Desc :=
  match m with
  | constMetric desc _ _ _ => desc
  | constSummary desc _ _ _ _ => desc
  end.

Definition metricLabelValues (m : Metric) : list string :=
  match m with
  | constMetric _ _ _ labelValues => labelValues
  | constSummary _ _ _ _ labelValues => labelValues
  end.

(** Modelled from the spec: what the client library (not among the sources)
    decides. [BuildFQName] joins namespace, subsystem and metric name into
    the full name; [descError] is the naming conflict, if any, that the
    exposition layer reports for a description; [labelValueError] is the
    error, if any, that it reports for a label value. *)
Class Exposition : Type := {
  BuildFQName : string → string → string → string;
  descError : Desc → option string;
  labelValueError : string → option string
}.

Section Constructors.
Context `{!Exposition}.

(** Modelled from the spec: the label values of an observation are refused
    when they are not as many as the variable labels (label cardinality),
    and else with the error of the first of them that the exposition layer
    refuses. *)
Definition validateLabelValues (vals : list string) (expectedNumberOfValues : nat)
  : option string :=
  if decide (length vals = expectedNumberOfValues)
  then head (omap labelValueError vals)
  else Some "inconsistent label cardinality".

(** Modelled from the spec: constructing an observation fails on a naming
    conflict of its description, and else when its label values are
    refused. *)
Definition validate (desc : Desc) (labelValues : list string) : option string :=
  match descError desc with
  | Some err => Some err
  | None => validateLabelValues labelValues (length (variableLabels desc))
  end.

Definition NewConstMetric (desc : Desc) (valueType : ValueType) (value : float)
    (labelValues : list string) : Metric + string :=
  match validate desc labelValues with
  | Some err => inr err
  | None => inl (constMetric desc valueType value labelValues)
  end.

Definition MustNewConstMetric (desc : Desc) (valueType : ValueType)
    (value : float) (labelValues : list string) : Go.Outcome Metric :=
  match NewConstMetric desc valueType value labelValues with
  | inl m => Go.Done m
  | inr err => Go.Panic err
  end.

Definition NewConstSummary (desc : Desc) (count : Z) (sum : float)
    (quantiles : list (float * float)) (labelValues : list string)
  : Metric + string :=
  match validate desc labelValues with
  | Some err => inr err
  | None => inl (constSummary desc count sum quantiles labelValues)
  end.

Definition MustNewConstSummary (desc : Desc) (count : Z) (sum : float)
    (quantiles : list (float * float)) (labelValues : list string)
  : Go.Outcome Metric :=
  match NewConstSummary desc count sum quantiles labelValues with
  | inl m => Go.Done m
  | inr err => Go.Panic err
  end.

(** The error, if any, with which the construction of an observation
    fails, and the first error among the observations of a list. *)
Definition refusal (m : Metric) : option string :=
  validate (metricDesc m) (metricLabelValues m).

Definition firstRefusal (ms : list Metric) : option string :=
  head (omap refusal ms).

End Constructors.

(** Modelled from the spec: an exposition layer that writes the full name
    as {namespace}_{subsystem}_{metric}, reports a naming conflict when a
    label name occurs twice among the variable and constant labels, and
    refuses a label value that is not valid UTF-8. *)
Definition joinFQName (namespace subsystem name : string) : string :=
  namespace +:+ "_" +:+ subsystem +:+ "_" +:+ name.

(** Modelled from the spec: the naming conflict of a description with a
    repeated label name. *)
Definition duplicateLabel (desc : Desc) : option string :=
  if decide (NoDup (variableLabels desc ++ (map_to_list (constLabels desc)).*1))
  then None
  else Some "duplicate label names".

(** Modelled from the spec: the error of a label value that is not valid
    UTF-8. *)
Definition invalidLabelValue (val : string) : option string :=
  if utf8.ValidString val then None
  else Some "label value is not valid UTF-8".

(** Modelled from the spec: the exposition layer made of the three. *)
Definition checking : Exposition :=
  {| BuildFQName := joinFQName;
     descError := duplicateLabel;
     labelValueError := invalidLabelValue |}.

End prometheus.

(** ** Package utils: name normalisation *)

Module utils.

(** The string sanitisers of package [utils], which is not among the
    sources. *)
Class Normalizer : Type := {
  NormalizeName : string → string;
  NormalizeNameDesc : string → string;
  NormalizeOriginDesc : string → string
}.

(** A normaliser for names that are already in normal form. *)
Definition verbatim : Normalizer :=
  {| NormalizeName := id; NormalizeNameDesc := id; NormalizeOriginDesc := id |}.

End utils.

(** ** Package collectors *)

Module collectors.

(** Modelled from the spec: the subsystem constants, which the package
    declares in a file that is not among the sources. *)
Definition http_start_stop_subsystem : string := "http_start_stop".

(** Modelled from the spec: the subsystem of the value-metrics collector. *)
Definition value_metrics_subsystem : string := "value_metrics".

(** The aggregation tree. Every map holds pointers to nodes that
    [calculateMetrics] allocates itself, one per path, so no node is shared
    and a map from keys to nodes is the whole heap the tree occupies. *)
Record Method (S : Type) : Type := {
  StatusCodes : gmap Z Z;
  ContentLength : S;
  ClientDuration : S;
  ServerDuration : S
}.
Arguments StatusCodes {S} _.
Arguments ContentLength {S} _.
Arguments ClientDuration {S} _.
Arguments ServerDuration {S} _.

Record Uri (S : Type) : Type := { Methods : gmap string (Method S) }.
Arguments Methods {S} _.

Record Instance (S : Type) : Type := { Uris : gmap string (Uri S) }.
Arguments Uris {S} _.

Record Application (S : Type) : Type := { Instances : gmap string (Instance S) }.
Arguments Instances {S} _.

Abbreviation Applications S := (gmap string (Application S)).

(** A path application → instance → uri → method. *)
Abbreviation LeafKey := (string * string * string * string)%type.

Definition keyOf (h : metrics.HttpStartStop) : LeafKey :=
  (metrics.ApplicationId h, metrics.InstanceId h, metrics.Uri h, metrics.Method h).

(** The node at the end of a path, if the path exists. *)
Definition lookupLeaf {S : Type} (applications : Applications S) (k : LeafKey)
  : option (Method S) :=
  application ← applications !! k.1.1.1;
  instance ← Instances application !! k.1.1.2;
  uri ← Uris instance !! k.1.2;
  Methods uri !! k.2.

(** The leaves in the order the four nested [range] loops visit them. *)
Definition leaves {S : Type} (applications : Applications S)
  : list (LeafKey * Method S) :=
  a ← map_to_list applications;
  i ← map_to_list (Instances a.2);
  u ← map_to_list (Uris i.2);
  m ← map_to_list (Methods u.2);
  [((a.1, i.1, u.1, m.1), m.2)].

(** The records of a batch that are aggregated at a path: those with this
    path and a non-empty application id. *)
Definition contributes (k : LeafKey) (h : metrics.HttpStartStop) : Prop :=
  metrics.ApplicationId h ≠ "" ∧ keyOf h = k.

#[global] Instance contributes_dec k h : Decision (contributes k h).
Proof. unfold contributes. apply _. Defined.

Definition recordsAt (k : LeafKey) (httpStartStops : list metrics.HttpStartStop)
  : list metrics.HttpStartStop :=
  filter (contributes k) httpStartStops.

(** The total of a [map[int32]int64] of counts. *)
Definition total (statusCodes : gmap Z Z) : Z :=
  map_fold (λ _ requestTotal acc, requestTotal + acc) 0 statusCodes.

(** [statusCodes[statusCode]++] on a [map[int32]int64]: a missing key
    reads as 0, the sum is an [int64]. *)
Definition increment (statusCodes : gmap Z Z) (statusCode : Z) : gmap Z Z :=
  <[statusCode := Go.int64 (default 0 (statusCodes !! statusCode) + 1)]> statusCodes.

Module HttpStartStopCollector.

Record t : Type := {
  namespace : string;
  metricsStore : metrics.Store;
  requestTotalDesc : prometheus.Desc;
  responseSizeBytesDesc : prometheus.Desc;
  clientRequestDurationNanosecondsDesc : prometheus.Desc;
  serverRequestDurationNanosecondsDesc : prometheus.Desc
}.

Section Methods.
Context {S : Type} `{!quantile.Stream S} `{!prometheus.Exposition}.

(** The leaf a path gets when it is first seen. *)
Definition newMethod : Method S :=
  {| StatusCodes := ∅;
     ContentLength := quantile.NewTargeted [0.50; 0.90; 0.99]%float;
     ClientDuration := quantile.NewTargeted [0.50; 0.90; 0.99]%float;
     ServerDuration := quantile.NewTargeted [0.50; 0.90; 0.99]%float |}.

(** The last four statements of the loop body: the status counter is
    incremented and the three numbers are inserted as [float64]. *)
Definition record (method : Method S) (httpStartStop : metrics.HttpStartStop)
  : Method S :=
  {| StatusCodes := increment (StatusCodes method) (metrics.StatusCode httpStartStop);
     ContentLength :=
       quantile.Insert (ContentLength method)
         (Go.float64 (metrics.ContentLength httpStartStop));
     ClientDuration :=
       quantile.Insert (ClientDuration method)
         (Go.float64 (metrics.ClientDuration httpStartStop));
     ServerDuration :=
       quantile.Insert (ServerDuration method)
         (Go.float64 (metrics.ServerDuration httpStartStop)) |}.

(** One iteration of the loop of [calculateMetrics]. Each level is looked
    up and created when missing; the updated node is written back along
    the path, which is what the updates through the pointers amount to. *)
Definition aggregate (applications : Applications S)
    (httpStartStop : metrics.HttpStartStop) : Applications S :=
  if decide (metrics.ApplicationId httpStartStop = "") then applications
  else
    let application :=
      default {| Instances := ∅ |}
        (applications !! metrics.ApplicationId httpStartStop) in
    let instance :=
      default {| Uris := ∅ |}
        (Instances application !! metrics.InstanceId httpStartStop) in
    let uri :=
      default {| Methods := ∅ |} (Uris instance !! metrics.Uri httpStartStop) in
    let method :=
      default newMethod (Methods uri !! metrics.Method httpStartStop) in
    let method := record method httpStartStop in
    let uri :=
      {| Methods := <[metrics.Method httpStartStop := method]> (Methods uri) |} in
    let instance :=
      {| Uris := <[metrics.Uri httpStartStop := uri]> (Uris instance) |} in
    let application :=
      {| Instances :=
           <[metrics.InstanceId httpStartStop := instance]> (Instances application) |} in
    <[metrics.ApplicationId httpStartStop := application]> applications.

Definition calculateMetrics (c : t) (httpStartStops : list metrics.HttpStartStop)
  : Applications S :=
  foldl aggregate ∅ httpStartStops.

Definition reportRequestTotal (c : t) (requestTotal : Z)
    (applicationID instanceID uri method statusCode : string)
  : Go.Outcome (list prometheus.Metric) :=
  m ← prometheus.MustNewConstMetric (requestTotalDesc c) prometheus.CounterValue
         (Go.float64 requestTotal)
         [applicationID; instanceID; uri; method; statusCode];
  mret [m].

(** The body the three summary reporters share: the sum of the retained
    samples, the three quantile estimates, then the count, each call made
    on the stream the previous one left. *)
Definition reportSummary (desc : prometheus.Desc) (stream : S)
    (applicationID instanceID uri method : string)
  : Go.Outcome (S * list prometheus.Metric) :=
  let samples := quantile.Samples stream in
  let sum :=
    foldl (λ sum sample, (sum + quantile.Value sample)%float) 0%float samples.1 in
  let q50 := quantile.Query samples.2 0.50%float in
  let q90 := quantile.Query q50.2 0.90%float in
  let q99 := quantile.Query q90.2 0.99%float in
  let quantiles := [(0.50, q50.1); (0.90, q90.1); (0.99, q99.1)]%float in
  let count := quantile.Count q99.2 in
  m ← prometheus.MustNewConstSummary desc (Go.uint64 count.1) sum quantiles
         [applicationID; instanceID; uri; method];
  mret (count.2, [m]).

Definition reportResponseSize (c : t) (responseSize : S)
    (applicationID instanceID uri method : string) :=
  reportSummary (responseSizeBytesDesc c) responseSize
    applicationID instanceID uri method.

Definition reportClientRequestDuration (c : t) (clientRequestDuration : S)
    (applicationID instanceID uri method : string) :=
  reportSummary (clientRequestDurationNanosecondsDesc c) clientRequestDuration
    applicationID instanceID uri method.

Definition reportServerRequestDuration (c : t) (serverRequestDuration : S)
    (applicationID instanceID uri method : string) :=
  reportSummary (serverRequestDurationNanosecondsDesc c) serverRequestDuration
    applicationID instanceID uri method.

(** The body of the innermost loop of [reportMetrics]. *)
Definition reportMethod (c : t) (applicationID instanceID uriKey methodKey : string)
    (method : Method S) : Go.Outcome (Method S * list prometheus.Metric) :=
  size ← reportResponseSize c (ContentLength method)
            applicationID instanceID uriKey methodKey;
  client ← reportClientRequestDuration c (ClientDuration method)
              applicationID instanceID uriKey methodKey;
  server ← reportServerRequestDuration c (ServerDuration method)
              applicationID instanceID uriKey methodKey;
  totals ← Go.rangeSlice
              (λ entry : Z * Z,
                 reportRequestTotal c entry.2
                   applicationID instanceID uriKey methodKey (strconv.Itoa entry.1))
              (map_to_list (StatusCodes method));
  mret ({| StatusCodes := StatusCodes method;
           ContentLength := size.1;
           ClientDuration := client.1;
           ServerDuration := server.1 |},
        size.2 ++ client.2 ++ server.2 ++ totals).

Definition reportMetrics (c : t) (applications : Applications S)
  : Go.Outcome (Applications S * list prometheus.Metric) :=
  Go.rangeMap (λ applicationID application,
    instances ← Go.rangeMap (λ instanceID instance,
      uris ← Go.rangeMap (λ uriKey uri,
        methods ← Go.rangeMap (λ methodKey method,
          reportMethod c applicationID instanceID uriKey methodKey method)
          (Methods uri);
        mret ({| Methods := methods.1 |}, methods.2))
        (Uris instance);
      mret ({| Uris := uris.1 |}, uris.2))
      (Instances application);
    mret ({| Instances := instances.1 |}, instances.2))
    applications.

Definition Collect (c : t) : Go.Outcome (list prometheus.Metric) :=
  let applications :=
    calculateMetrics c (metrics.GetHttpStartStops (metricsStore c)) in
  r ← reportMetrics c applications;
  mret r.2.

(** [Describe] sends the four descriptions, in this order. *)
Definition Describe (c : t) : list prometheus.Desc :=
  [requestTotalDesc c;
   responseSizeBytesDesc c;
   clientRequestDurationNanosecondsDesc c;
   serverRequestDurationNanosecondsDesc c].

End Methods.

End HttpStartStopCollector.

Definition NewHttpStartStopCollector `{!prometheus.Exposition}
    (namespace : string) (metricsStore : metrics.Store)
  : HttpStartStopCollector.t :=
  let requestTotalDesc :=
    prometheus.NewDesc
      (prometheus.BuildFQName namespace http_start_stop_subsystem "request_total")
      "Cloud Foundry Firehose http start stop total requests."
      ["application_id"; "instance_id"; "uri"; "method"; "status_code"]
      ∅ in
  let responseSizeBytesDesc :=
    prometheus.NewDesc
      (prometheus.BuildFQName namespace http_start_stop_subsystem "response_size_bytes")
      "Cloud Foundry Firehose http start stop request size in bytes."
      ["application_id"; "instance_id"; "uri"; "method"]
      ∅ in
  let clientRequestDurationNanosecondsDesc :=
    prometheus.NewDesc
      (prometheus.BuildFQName namespace http_start_stop_subsystem
         "client_request_duration_nanoseconds")
      "Cloud Foundry Firehose http start stop client request duration in nanoseconds."
      ["application_id"; "instance_id"; "uri"; "method"]
      ∅ in
  let serverRequestDurationNanosecondsDesc :=
    prometheus.NewDesc
      (prometheus.BuildFQName namespace http_start_stop_subsystem
         "server_request_duration_nanoseconds")
      "Cloud Foundry Firehose http start stop server request duration in nanoseconds."
      ["application_id"; "instance_id"; "uri"; "method"]
      ∅ in
  {| HttpStartStopCollector.namespace := namespace;
     HttpStartStopCollector.metricsStore := metricsStore;
     HttpStartStopCollector.requestTotalDesc := requestTotalDesc;
     HttpStartStopCollector.responseSizeBytesDesc := responseSizeBytesDesc;
     HttpStartStopCollector.clientRequestDurationNanosecondsDesc :=
       clientRequestDurationNanosecondsDesc;
     HttpStartStopCollector.serverRequestDurationNanosecondsDesc :=
       serverRequestDurationNanosecondsDesc |}.

(** What the walk over the tree is expected to send, in the words of the
    specification, and the state it is expected to leave. *)
Section Expected.
Context {S : Type} `{!quantile.Stream S} `{!prometheus.Exposition}.

(** The summary of one stream: its count, the sum of the values of its
    retained samples and its estimates of the three quantiles. *)
Definition summaryOf (desc : prometheus.Desc) (stream : S) (k : LeafKey)
  : prometheus.Metric :=
  prometheus.constSummary desc
    (Go.uint64 (quantile.Count stream).1)
    (foldl (λ sum sample, (sum + quantile.Value sample)%float) 0%float
       (quantile.Samples stream).1)
    [(0.50, (quantile.Query stream 0.50).1);
     (0.90, (quantile.Query stream 0.90).1);
     (0.99, (quantile.Query stream 0.99).1)]%float
    [k.1.1.1; k.1.1.2; k.1.2; k.2].

(** The counter of one status code: the code as a fifth label, written in
    decimal, and its count as the value. *)
Definition counterOf (desc : prometheus.Desc) (k : LeafKey) (entry : Z * Z)
  : prometheus.Metric :=
  prometheus.constMetric desc prometheus.CounterValue (Go.float64 entry.2)
    [k.1.1.1; k.1.1.2; k.1.2; k.2; strconv.Itoa entry.1].

Definition observationsOf (c : HttpStartStopCollector.t) (leaf : LeafKey * Method S)
  : list prometheus.Metric :=
  [summaryOf (HttpStartStopCollector.responseSizeBytesDesc c)
     (ContentLength leaf.2) leaf.1;
   summaryOf (HttpStartStopCollector.clientRequestDurationNanosecondsDesc c)
     (ClientDuration leaf.2) leaf.1;
   summaryOf (HttpStartStopCollector.serverRequestDurationNanosecondsDesc c)
     (ServerDuration leaf.2) leaf.1] ++
  (counterOf (HttpStartStopCollector.requestTotalDesc c) leaf.1 <$>
     map_to_list (StatusCodes leaf.2)).

(** A stream after it was reported: [Samples], three [Query] calls and
    [Count] were called on it, in this order. *)
Definition reported (stream : S) : S :=
  let s1 := (quantile.Samples stream).2 in
  let s2 := (quantile.Query s1 0.50%float).2 in
  let s3 := (quantile.Query s2 0.90%float).2 in
  let s4 := (quantile.Query s3 0.99%float).2 in
  (quantile.Count s4).2.

Definition reportedMethod (method : Method S) : Method S :=
  {| StatusCodes := StatusCodes method;
     ContentLength := reported (ContentLength method);
     ClientDuration := reported (ClientDuration method);
     ServerDuration := reported (ServerDuration method) |}.

(** A map after each of its nodes was replaced by [node]. *)
Definition walked {V : Type} (node : V → V) (m : gmap string V) : gmap string V :=
  list_to_map ((λ entry : string * V, (entry.1, node entry.2)) <$> map_to_list m).

Definition reportedTree (applications : Applications S) : Applications S :=
  walked (λ application,
    {| Instances := walked (λ instance,
         {| Uris := walked (λ uri,
              {| Methods := walked reportedMethod (Methods uri) |})
              (Uris instance) |})
         (Instances application) |})
    applications.

(** The exposition layer reports no naming conflict for the four
    descriptions of the collector. *)
Definition accepted (c : HttpStartStopCollector.t) : Prop :=
  prometheus.descError (HttpStartStopCollector.requestTotalDesc c) = None ∧
  prometheus.descError (HttpStartStopCollector.responseSizeBytesDesc c) = None ∧
  prometheus.descError
    (HttpStartStopCollector.clientRequestDurationNanosecondsDesc c) = None ∧
  prometheus.descError
    (HttpStartStopCollector.serverRequestDurationNanosecondsDesc c) = None.

(** The label values of the observations of a leaf: the four strings of
    its path and the numerals of its status codes. *)
Definition labelValuesOf (leaf : LeafKey * Method S) : list string :=
  [leaf.1.1.1.1; leaf.1.1.1.2; leaf.1.1.2; leaf.1.2] ++
  (strconv.Itoa <$> (map_to_list (StatusCodes leaf.2)).*1).

(** The exposition layer refuses no label value of the tree. *)
Definition labelled (applications : Applications S) : Prop :=
  Forall (λ leaf,
            Forall (λ val, prometheus.labelValueError val = None)
                   (labelValuesOf leaf))
         (leaves applications).

End Expected.

Module ValueMetricsCollector.

Record t : Type := {
  namespace : string;
  environment : string;
  metricsStore : metrics.Store;
  valueMetricsCollectorDesc : prometheus.Desc
}.

(** What one call of [Collect] works on: the batch the store returned (the
    slice and the tag maps stay shared with the store), the channel and
    the error log. *)
Record Cycle : Type := {
  valueMetrics : list metrics.ValueMetric;
  ch : list prometheus.Metric;
  log : list string
}.

Section Methods.
Context `{!prometheus.Exposition} `{!utils.Normalizer}.

(** The name and the label names of the description built for a value
    metric, and the label values that go with them: six fixed labels, then
    one label per tag, names and values appended side by side. *)
Definition metricName (valueMetric : metrics.ValueMetric) : string :=
  utils.NormalizeName (metrics.Origin valueMetric) +:+ "_" +:+
  utils.NormalizeName (metrics.Name valueMetric).

Definition labels (valueMetric : metrics.ValueMetric) : list string * list string :=
  let constLabels :=
    ["origin"; "bosh_deployment"; "bosh_job_name"; "bosh_job_id"; "bosh_job_ip";
     "unit"] in
  let labelValues :=
    [metrics.Origin valueMetric; metrics.Deployment valueMetric;
     metrics.Job valueMetric; metrics.Index valueMetric; metrics.IP valueMetric;
     metrics.Unit valueMetric] in
  foldl (λ (acc : list string * list string) (tag : string * string),
           (acc.1 ++ [utils.NormalizeName tag.1], acc.2 ++ [tag.2]))
        (constLabels, labelValues)
        (map_to_list (metrics.Tags valueMetric)).

Definition describe (c : t) (valueMetric : metrics.ValueMetric) : prometheus.Desc :=
  prometheus.NewDesc
    (prometheus.BuildFQName (namespace c) value_metrics_subsystem
       (metricName valueMetric))
    ("Cloud Foundry Firehose '" +:+
     utils.NormalizeNameDesc (metrics.Name valueMetric) +:+
     "' value metric from '" +:+
     utils.NormalizeOriginDesc (metrics.Origin valueMetric) +:+ "'.")
    (labels valueMetric).1
    {[ "environment" := environment c ]}.

(** One iteration of the loop of [Collect]: the gauge is sent, or the
    error is logged and the loop goes on. *)
Definition collect (c : t) (cycle : Cycle) (valueMetric : metrics.ValueMetric)
  : Cycle :=
  match
    prometheus.NewConstMetric (describe c valueMetric) prometheus.GaugeValue
      (metrics.Value valueMetric) (labels valueMetric).2
  with
  | inr err =>
      {| valueMetrics := valueMetrics cycle;
         ch := ch cycle;
         log := log cycle ++
           ["Value Metric `" +:+ metrics.Name valueMetric +:+ "` from `" +:+
            metrics.Origin valueMetric +:+ "` discarded: " +:+ err] |}
  | inl vm =>
      {| valueMetrics := valueMetrics cycle;
         ch := ch cycle ++ [vm];
         log := log cycle |}
  end.

Definition Collect (c : t) : Go.Outcome Cycle :=
  let cycle :=
    {| valueMetrics := metrics.GetValueMetrics (metricsStore c);
       ch := [];
       log := [] |} in
  Go.Done (foldl (collect c) cycle (valueMetrics cycle)).

(** [Describe] sends the description of the collector itself. *)
Definition Describe (c : t) : list prometheus.Desc :=
  [valueMetricsCollectorDesc c].

End Methods.

End ValueMetricsCollector.

Definition NewValueMetricsCollector `{!prometheus.Exposition}
    (namespace environment : string) (metricsStore : metrics.Store)
  : ValueMetricsCollector.t :=
  let valueMetricsCollectorDesc :=
    prometheus.NewDesc
      (prometheus.BuildFQName namespace value_metrics_subsystem "collector")
      "Cloud Foundry Firehose value metrics collector."
      []
      {[ "environment" := environment ]} in
  {| ValueMetricsCollector.namespace := namespace;
     ValueMetricsCollector.environment := environment;
     ValueMetricsCollector.metricsStore := metricsStore;
     ValueMetricsCollector.valueMetricsCollectorDesc := valueMetricsCollectorDesc |}.

(** What one value metric is expected to contribute, in the words of the
    specification. *)
Section ExpectedGauges.
Context `{!prometheus.Exposition} `{!utils.Normalizer}.

(** The gauge of a value metric: the name normalised from origin and name
    under the collector's namespace, the six fixed labels followed by one
    label per tag, the constant label [environment], and the metric's
    value. *)
Definition gaugeOf (c : ValueMetricsCollector.t) (valueMetric : metrics.ValueMetric)
  : prometheus.Metric :=
  let tags := map_to_list (metrics.Tags valueMetric) in
  prometheus.constMetric
    {| prometheus.fqName :=
         prometheus.BuildFQName (ValueMetricsCollector.namespace c) "value_metrics"
           (utils.NormalizeName (metrics.Origin valueMetric) +:+ "_" +:+
            utils.NormalizeName (metrics.Name valueMetric));
       prometheus.help :=
         "Cloud Foundry Firehose '" +:+
         utils.NormalizeNameDesc (metrics.Name valueMetric) +:+
         "' value metric from '" +:+
         utils.NormalizeOriginDesc (metrics.Origin valueMetric) +:+ "'.";
       prometheus.variableLabels :=
         ["origin"; "bosh_deployment"; "bosh_job_name"; "bosh_job_id";
          "bosh_job_ip"; "unit"] ++ (utils.NormalizeName <$> tags.*1);
       prometheus.constLabels :=
         {[ "environment" := ValueMetricsCollector.environment c ]} |}
    prometheus.GaugeValue
    (metrics.Value valueMetric)
    ([metrics.Origin valueMetric; metrics.Deployment valueMetric;
      metrics.Job valueMetric; metrics.Index valueMetric;
      metrics.IP valueMetric; metrics.Unit valueMetric] ++ tags.*2).

(** The error the exposition layer reports for that gauge, if any: the
    conflict of its description or a label value it refuses. *)
Definition conflict (c : ValueMetricsCollector.t) (valueMetric : metrics.ValueMetric)
  : option string :=
  prometheus.refusal (gaugeOf c valueMetric).

(** A value metric is sent as its gauge unless an error is reported. *)
Definition sent (c : ValueMetricsCollector.t) (valueMetric : metrics.ValueMetric)
  : option prometheus.Metric :=
  match conflict c valueMetric with
  | None => Some (gaugeOf c valueMetric)
  | Some _ => None
  end.

(** A value metric with an error is logged with its name and origin. *)
Definition discarded (c : ValueMetricsCollector.t) (valueMetric : metrics.ValueMetric)
  : option string :=
  match conflict c valueMetric with
  | None => None
  | Some err =>
      Some ("Value Metric `" +:+ metrics.Name valueMetric +:+ "` from `" +:+
            metrics.Origin valueMetric +:+ "` discarded: " +:+ err)
  end.

End ExpectedGauges.

(** The earlier revision of value_metrics_collector.go that is kept beside
    the current one: no tags, no environment, the name taken from the
    metric name alone, and a constructor that panics instead of returning
    its error. [namespace] is a package-level name there. *)
Module valueMetricsCollector.

Record t : Type := { metricsStore : metrics.Store }.

Section Methods.
Context `{!prometheus.Exposition} `{!utils.Normalizer}.

Definition Collect (namespace : string) (c : t)
  : Go.Outcome (list prometheus.Metric) :=
  Go.rangeSlice (λ valueMetric,
    m ← prometheus.MustNewConstMetric
           (prometheus.NewDesc
              (prometheus.BuildFQName namespace value_metrics_subsystem
                 (utils.NormalizeName (metrics.Name valueMetric)))
              ("Cloud Foundry firehose '" +:+ metrics.Name valueMetric +:+
               "' value metric.")
              ["origin"; "deployment"; "job"; "index"; "ip"; "unit"]
              ∅)
           prometheus.GaugeValue
           (metrics.Value valueMetric)
           [metrics.Origin valueMetric; metrics.Deployment valueMetric;
            metrics.Job valueMetric; metrics.Index valueMetric;
            metrics.IP valueMetric; metrics.Unit valueMetric];
    mret [m])
    (metrics.GetValueMetrics (metricsStore c)).

End Methods.

End valueMetricsCollector.

(** What the earlier revision is expected to send for one value metric. *)
Section ExpectedLegacy.
Context `{!prometheus.Exposition} `{!utils.Normalizer}.

Definition legacyDesc (namespace : string) (valueMetric : metrics.ValueMetric)
  : prometheus.Desc :=
  {| prometheus.fqName :=
       prometheus.BuildFQName namespace "value_metrics"
         (utils.NormalizeName (metrics.Name valueMetric));
     prometheus.help :=
       "Cloud Foundry firehose '" +:+ metrics.Name valueMetric +:+ "' value metric.";
     prometheus.variableLabels :=
       ["origin"; "deployment"; "job"; "index"; "ip"; "unit"];
     prometheus.constLabels := ∅ |}.

Definition legacyGauge (namespace : string) (valueMetric : metrics.ValueMetric)
  : prometheus.Metric :=
  prometheus.constMetric (legacyDesc namespace valueMetric) prometheus.GaugeValue
    (metrics.Value valueMetric)
    [metrics.Origin valueMetric; metrics.Deployment valueMetric;
     metrics.Job valueMetric; metrics.Index valueMetric;
     metrics.IP valueMetric; metrics.Unit valueMetric].

End ExpectedLegacy.

(** The shape of the trees that [calculateMetrics] builds, and what the
    walk sends whatever the streams answer. *)
Section Shape.
Context {S : Type} `{!quantile.Stream S}.

(** No branch is empty: a leaf has counted a status code, a uri has a
    method, an instance a uri and an application an instance. *)
Definition okMethod (method : Method S) : Prop := StatusCodes method ≠ ∅.

Definition okUri (uri : Uri S) : Prop :=
  Methods uri ≠ ∅ ∧ map_Forall (λ _, okMethod) (Methods uri).

Definition okInstance (instance : Instance S) : Prop :=
  Uris instance ≠ ∅ ∧ map_Forall (λ _, okUri) (Uris instance).

Definition okApplication (application : Application S) : Prop :=
  Instances application ≠ ∅ ∧ map_Forall (λ _, okInstance) (Instances application).

Definition noEmptyBranch (applications : Applications S) : Prop :=
  map_Forall (λ _, okApplication) applications.

(** The summary as the reporter builds it: every estimate is asked of the
    stream the previous call left behind. *)
Definition summarySent (desc : prometheus.Desc) (stream : S) (k : LeafKey)
  : prometheus.Metric :=
  let s1 := (quantile.Samples stream).2 in
  let s2 := (quantile.Query s1 0.50%float).2 in
  let s3 := (quantile.Query s2 0.90%float).2 in
  let s4 := (quantile.Query s3 0.99%float).2 in
  prometheus.constSummary desc
    (Go.uint64 (quantile.Count s4).1)
    (foldl (λ sum sample, (sum + quantile.Value sample)%float) 0%float
       (quantile.Samples stream).1)
    [(0.50, (quantile.Query s1 0.50).1);
     (0.90, (quantile.Query s2 0.90).1);
     (0.99, (quantile.Query s3 0.99).1)]%float
    [k.1.1.1; k.1.1.2; k.1.2; k.2].

Definition observationsSent (c : HttpStartStopCollector.t) (leaf : LeafKey * Method S)
  : list prometheus.Metric :=
  [summarySent (HttpStartStopCollector.responseSizeBytesDesc c)
     (ContentLength leaf.2) leaf.1;
   summarySent (HttpStartStopCollector.clientRequestDurationNanosecondsDesc c)
     (ClientDuration leaf.2) leaf.1;
   summarySent (HttpStartStopCollector.serverRequestDurationNanosecondsDesc c)
     (ServerDuration leaf.2) leaf.1] ++
  (counterOf (HttpStartStopCollector.requestTotalDesc c) leaf.1 <$>
     map_to_list (StatusCodes leaf.2)).

(** What identifies a time series: the description and the label values. *)
Definition series (m : prometheus.Metric) : prometheus.Desc * list string :=
  (prometheus.metricDesc m, prometheus.metricLabelValues m).

End Shape.

End collectors.

(** ** Package metrics of go-loggregator: the options of the registry *)

Module loggregator.

(** A Go map is [nil] or allocated. *)
Abbreviation GoMap := (option (gmap string string)).

(** [prometheus.Opts], of which [toPromOpt] fills in the name, the help
    text and the constant labels; the namespace and the subsystem stay
    empty. *)
Record Opts : Type := {
  Namespace : string;
  Subsystem : string;
  Name : string;
  Help : string;
  ConstLabels : GoMap
}.

(** The registry, as far as its options reach: the port of the server and
    the default tags. *)
Record Registry : Type := {
  port : string;
  defaultTags : GoMap
}.

(** [for k, v := range tags { labels[k] = v }]: the assignment panics on a
    [nil] map, and is not reached when there is no tag. *)
Definition assignAll (tags : gmap string string) (labels : GoMap)
  : Go.Outcome GoMap :=
  match labels with
  | Some m => Go.Done (Some (map_fold (λ k v m, <[k := v]> m) m tags))
  | None =>
      if decide (tags = ∅) then Go.Done None
      else Go.Panic "assignment to entry in nil map"
  end.

Definition Port (p : Registry) : string := port p.

(** An option is applied to the options (the registry) it is handed a
    pointer to. *)
Definition MetricOption : Type := Opts → Go.Outcome Opts.
Definition RegistryOption : Type := Registry → Go.Outcome Registry.

(** [for _, o := range mOpts { o(&opt) }]. *)
Fixpoint applyAll (opt : Opts) (mOpts : list MetricOption) : Go.Outcome Opts :=
  match mOpts with
  | [] => Go.Done opt
  | o :: mOpts' => opt' ← o opt; applyAll opt' mOpts'
  end.

Definition toPromOpt (p : Registry) (name helpText : string)
    (mOpts : list MetricOption) : Go.Outcome Opts :=
  let opt :=
    {| Namespace := ""; Subsystem := ""; Name := name; Help := helpText;
       ConstLabels := Some ∅ |} in
  applyAll opt mOpts.

Definition WithDefaultTags (tags : gmap string string) : RegistryOption :=
  λ r,
    labels ← assignAll tags (defaultTags r);
    mret {| port := port r; defaultTags := labels |}.

Definition WithMetricTags (tags : gmap string string) : MetricOption :=
  λ o,
    labels ← assignAll tags (ConstLabels o);
    mret {| Namespace := Namespace o; Subsystem := Subsystem o; Name := Name o;
            Help := Help o; ConstLabels := labels |}.

Definition WithHelpText (helpText : string) : MetricOption :=
  λ o,
    mret {| Namespace := Namespace o; Subsystem := Subsystem o; Name := Name o;
            Help := helpText; ConstLabels := ConstLabels o |}.

(** The options a caller can write with the two constructors, and the
    options they stand for. *)
Inductive Written : Type :=
| Tags (tags : gmap string string)
| HelpText (helpText : string).

Definition optionOf (w : Written) : MetricOption :=
  match w with
  | Tags tags => WithMetricTags tags
  | HelpText helpText => WithHelpText helpText
  end.

(** The help text and the labels a list of written options asks for:
    the last help text, and every tag with the value given last. *)
Definition helpOf (helpText : string) (ws : list Written) : string :=
  foldl (λ text w, match w with HelpText text' => text' | Tags _ => text end)
        helpText ws.

Definition labelsOf (labels : gmap string string) (ws : list Written)
  : gmap string string :=
  foldl (λ labels w, match w with Tags tags => tags ∪ labels | HelpText _ => labels end)
        labels ws.

End loggregator.

(** ** The scenarios of the specification *)

Module scenarios.

(** Scenario A: two requests answered 200 and one answered 500 on the same
    path. *)
Definition answered (statusCode : Z) : metrics.HttpStartStop :=
  {| metrics.ApplicationId := "a1"; metrics.InstanceId := "i1";
     metrics.Uri := "/x"; metrics.Method := "GET";
     metrics.StatusCode := statusCode; metrics.ContentLength := 100;
     metrics.ClientDuration := 50; metrics.ServerDuration := 40 |}.

Definition A : list metrics.HttpStartStop :=
  [answered 200; answered 200; answered 500].

(** Scenario B: a record without application id. *)
Definition B : list metrics.HttpStartStop :=
  [{| metrics.ApplicationId := ""; metrics.InstanceId := "i1";
      metrics.Uri := "/x"; metrics.Method := "GET";
      metrics.StatusCode := 200; metrics.ContentLength := 100;
      metrics.ClientDuration := 50; metrics.ServerDuration := 40 |}].

(** Scenario C: a value metric with one tag. *)
Definition memory (tags : gmap string string) : metrics.ValueMetric :=
  {| metrics.Origin := "doppler"; metrics.Deployment := "cf";
     metrics.Job := "doppler"; metrics.Index := "0"; metrics.IP := "10.0.0.1";
     metrics.Name := "memory"; metrics.Value := 1024%float;
     metrics.Unit := "bytes"; metrics.Tags := tags |}.

Definition C : metrics.ValueMetric := memory {[ "az" := "z1" ]}.

(** A value metric whose tag repeats the label [origin]. *)
Definition conflicting : metrics.ValueMetric := memory {[ "origin" := "gorouter" ]}.

(** A store holding the records of Scenario A and the two value metrics,
    and the HTTP collector over it, with the checking exposition layer, the
    sketch of the specification and the tree it aggregates. *)
Definition store : metrics.Store :=
  {| metrics.GetValueMetrics := [C; conflicting];
     metrics.GetHttpStartStops := A |}.

Definition httpStartStop : collectors.HttpStartStopCollector.t :=
  @collectors.NewHttpStartStopCollector prometheus.checking "firehose" store.

Definition aggregated : collectors.Applications quantile.Summary :=
  collectors.HttpStartStopCollector.calculateMetrics httpStartStop A.



End scenarios.

(** * Properties *)

Import collectors.

(** ** Integer conversions *)

Lemma int64_id (z : Z) : - 2 ^ 63 ≤ z < 2 ^ 63 → Go.int64 z = z.
Proof.
  intros Hz. unfold Go.int64.
  rewrite Z.mod_small; lia.
Qed.

Lemma int64_succ (z : Z) : Go.int64 (Go.int64 z + 1) = Go.int64 (z + 1).
Proof.
  unfold Go.int64.
  replace ((z + 2 ^ 63) mod 2 ^ 64 - 2 ^ 63 + 1 + 2 ^ 63)
    with ((z + 2 ^ 63) mod 2 ^ 64 + 1) by lia.
  replace (z + 1 + 2 ^ 63) with ((z + 2 ^ 63) + 1) by lia.
  rewrite Zplus_mod_idemp_l. reflexivity.
Qed.


(** ** The aggregation tree *)

Section Aggregation.
Context {S : Type} `{!quantile.Stream S}.
Implicit Types (applications : Applications S) (k : LeafKey).
Implicit Types (h : metrics.HttpStartStop) (hs : list metrics.HttpStartStop).

Ltac no_node := simpl; rewrite ?lookup_empty; simpl.

(** One iteration changes the leaf of the record's own path and no other. *)
Lemma lookupLeaf_aggregate applications h k :
  lookupLeaf (HttpStartStopCollector.aggregate applications h) k =
    if decide (contributes k h)
    then Some (HttpStartStopCollector.record
                 (default HttpStartStopCollector.newMethod (lookupLeaf applications k)) h)
    else lookupLeaf applications k.
Proof.
  destruct k as [[[a i] u] m].
  unfold HttpStartStopCollector.aggregate, contributes, keyOf, lookupLeaf; simpl.
  destruct (decide (metrics.ApplicationId h = "")) as [He|He].
  { by destruct (decide _) as [[? _]|_]. }
  destruct (decide (metrics.ApplicationId h = a)) as [<-|Ha]; last first.
  { rewrite lookup_insert_ne //. destruct (decide _) as [[_ ?]|_]; [congruence|done]. }
  rewrite lookup_insert_eq /=.
  destruct (decide (metrics.InstanceId h = i)) as [<-|Hi]; last first.
  { rewrite lookup_insert_ne //. destruct (decide _) as [[_ ?]|_]; [congruence|].
    by destruct (applications !! _); no_node. }
  rewrite lookup_insert_eq /=.
  destruct (decide (metrics.Uri h = u)) as [<-|Hu]; last first.
  { rewrite lookup_insert_ne //. destruct (decide _) as [[_ ?]|_]; [congruence|].
    destruct (applications !! _) as [application|]; no_node; [|done].
    by destruct (Instances application !! _); no_node. }
  rewrite lookup_insert_eq /=.
  destruct (decide (metrics.Method h = m)) as [<-|Hm]; last first.
  { rewrite lookup_insert_ne //. destruct (decide _) as [[_ ?]|_]; [congruence|].
    destruct (applications !! _) as [application|]; no_node; [|done].
    destruct (Instances application !! _) as [instance|]; no_node; [|done].
    by destruct (Uris instance !! _); no_node. }
  rewrite lookup_insert_eq. destruct (decide _) as [_|Hn]; [|by destruct Hn].
  f_equal. f_equal.
  destruct (applications !! _) as [application|]; no_node; [|done].
  destruct (Instances application !! _) as [instance|]; no_node; [|done].
  by destruct (Uris instance !! _) as [uri|]; no_node.
Qed.

(** The tree after a batch, leaf by leaf: a path exists when some record
    of the batch is aggregated there, and its leaf is the fresh leaf with
    those records recorded in batch order. *)
Lemma lookupLeaf_foldl hs applications k :
  lookupLeaf (foldl HttpStartStopCollector.aggregate applications hs) k =
    match recordsAt k hs with
    | [] => lookupLeaf applications k
    | rs =>
        Some (foldl HttpStartStopCollector.record
                (default HttpStartStopCollector.newMethod (lookupLeaf applications k)) rs)
    end.
Proof.
  revert applications. induction hs as [|h hs IH]; intros applications; [done|].
  rewrite /= IH lookupLeaf_aggregate /recordsAt filter_cons.
  fold (recordsAt k hs).
  destruct (decide (contributes k h)); simpl; by destruct (recordsAt k hs).
Qed.

Lemma lookupLeaf_empty k : lookupLeaf (∅ : Applications S) k = None.
Proof. by rewrite /lookupLeaf lookup_empty. Qed.

Lemma lookupLeaf_calculateMetrics c hs k :
  lookupLeaf (HttpStartStopCollector.calculateMetrics c hs) k =
    match recordsAt k hs with
    | [] => None
    | rs => Some (foldl HttpStartStopCollector.record HttpStartStopCollector.newMethod rs)
    end.
Proof.
  rewrite /HttpStartStopCollector.calculateMetrics lookupLeaf_foldl.
  by rewrite lookupLeaf_empty.
Qed.

(** The nested walk reaches exactly the paths of the tree. *)
Lemma elem_of_leaves applications k (method : Method S) :
  (k, method) ∈ leaves applications ↔ lookupLeaf applications k = Some method.
Proof.
  destruct k as [[[a i] u] m]. rewrite /leaves /lookupLeaf /=. split.
  - intros ([a' application] & Hin & Ha%elem_of_map_to_list)%list_elem_of_bind.
    apply list_elem_of_bind in Hin as ([i' instance] & Hin & Hi%elem_of_map_to_list).
    apply list_elem_of_bind in Hin as ([u' uri] & Hin & Hu%elem_of_map_to_list).
    apply list_elem_of_bind in Hin as ([m' method'] & Hin & Hm%elem_of_map_to_list).
    apply list_elem_of_singleton in Hin. simpl in *. simplify_eq.
    by rewrite Ha /= Hi /= Hu /=.
  - intros Hin.
    destruct (applications !! a) as [application|] eqn:Ha; simpl in Hin; [|done].
    destruct (Instances application !! i) as [instance|] eqn:Hi; simpl in Hin; [|done].
    destruct (Uris instance !! u) as [uri|] eqn:Hu; simpl in Hin; [|done].
    apply list_elem_of_bind. exists (a, application).
    split; [|by apply elem_of_map_to_list].
    apply list_elem_of_bind. exists (i, instance).
    split; [|by apply elem_of_map_to_list].
    apply list_elem_of_bind. exists (u, uri).
    split; [|by apply elem_of_map_to_list].
    apply list_elem_of_bind. exists (m, method).
    split; [|by apply elem_of_map_to_list].
    by apply list_elem_of_singleton.
Qed.

Lemma NoDup_bind_map_to_list {V B : Type} (m : gmap string V)
    (f : string * V → list B) (key : B → string) :
  (∀ x y, y ∈ f x → key y = x.1) →
  (∀ x, NoDup (f x)) →
  NoDup (map_to_list m ≫= f).
Proof.
  intros Hkey Hf. apply NoDup_bind; [|done|apply NoDup_map_to_list].
  intros [k1 v1] [k2 v2] y H1 H2 Hy1%Hkey Hy2%Hkey. simpl in *. subst k1 k2.
  f_equal. exact (map_to_list_unique m (key y) v1 v2 H1 H2).
Qed.

Lemma NoDup_leaves applications : NoDup (leaves applications).
Proof.
  rewrite /leaves.
  apply (NoDup_bind_map_to_list _ _ (λ y, y.1.1.1.1)).
  { intros a y ([] & Hin & _)%list_elem_of_bind.
    apply list_elem_of_bind in Hin as ([] & Hin & _).
    apply list_elem_of_bind in Hin as ([] & Hin & _).
    by apply list_elem_of_singleton in Hin as ->. }
  intros a. apply (NoDup_bind_map_to_list _ _ (λ y, y.1.1.1.2)).
  { intros i y ([] & Hin & _)%list_elem_of_bind.
    apply list_elem_of_bind in Hin as ([] & Hin & _).
    by apply list_elem_of_singleton in Hin as ->. }
  intros i. apply (NoDup_bind_map_to_list _ _ (λ y, y.1.1.2)).
  { intros u y ([] & Hin & _)%list_elem_of_bind.
    by apply list_elem_of_singleton in Hin as ->. }
  intros u. apply (NoDup_bind_map_to_list _ _ (λ y, y.1.2)).
  { intros m y Hin. by apply list_elem_of_singleton in Hin as ->. }
  intros m. apply NoDup_singleton.
Qed.

Lemma NoDup_leaf_keys applications : NoDup (leaves applications).*1.
Proof.
  apply NoDup_fmap_fst; [|apply NoDup_leaves].
  intros k m1 m2 H1%elem_of_leaves H2%elem_of_leaves. congruence.
Qed.

Lemma recordsAt_nil k hs :
  recordsAt k hs = [] ↔ ¬ ∃ h, h ∈ hs ∧ contributes k h.
Proof.
  rewrite /recordsAt. split.
  - intros Hnil (h & Hh & Hk).
    assert (h ∈ filter (contributes k) hs) as Hf by by apply list_elem_of_filter.
    rewrite Hnil in Hf. by apply not_elem_of_nil in Hf.
  - intros Hno. destruct (filter (contributes k) hs) as [|h rs] eqn:Hf; [done|].
    destruct Hno. exists h.
    assert (h ∈ filter (contributes k) hs) as Hin by (rewrite Hf; left).
    apply list_elem_of_filter in Hin. tauto.
Qed.

Lemma is_Some_lookupLeaf c hs k :
  is_Some (lookupLeaf (HttpStartStopCollector.calculateMetrics c hs) k) ↔
  ∃ h, h ∈ hs ∧ contributes k h.
Proof.
  rewrite lookupLeaf_calculateMetrics.
  destruct (recordsAt k hs) as [|r rs] eqn:Hrs.
  - apply recordsAt_nil in Hrs. split; [by intros []|done].
  - split; [|by eexists]. intros _.
    assert (r ∈ recordsAt k hs) as Hin by (rewrite Hrs; left).
    apply list_elem_of_filter in Hin. exists r. tauto.
Qed.

Lemma calculateMetrics_unattributable c hs :
  (∀ h, h ∈ hs → metrics.ApplicationId h = "") →
  HttpStartStopCollector.calculateMetrics c hs = (∅ : Applications S).
Proof.
  rewrite /HttpStartStopCollector.calculateMetrics.
  generalize (∅ : Applications S).
  induction hs as [|h hs IH]; intros applications Hall; [done|].
  assert (HttpStartStopCollector.aggregate applications h = applications) as Hh.
  { rewrite /HttpStartStopCollector.aggregate.
    destruct (decide _) as [|Hne]; [done|]. destruct Hne. apply Hall. left. }
  rewrite /= Hh. apply IH. intros h' Hh'. apply Hall. by right.
Qed.

(** C1: the tree returned by [calculateMetrics] has one leaf for each
    distinct (applicationId, instanceId, uri, method) among the records
    with a non-empty application id and no other leaf: a path exists
    exactly when such a record has it, the walk over the leaves meets the
    distinct paths once each, no leaf sits under the empty application id,
    and a batch of records without application id gives the empty tree. *)
Theorem calculateMetrics_one_leaf_per_path
    (c : HttpStartStopCollector.t) (hs : list metrics.HttpStartStop) :
  let applications : Applications S := HttpStartStopCollector.calculateMetrics c hs in
  (∀ k, is_Some (lookupLeaf applications k) ↔
        ∃ h, h ∈ hs ∧ metrics.ApplicationId h ≠ "" ∧ keyOf h = k) ∧
  (leaves applications).*1 ≡ₚ
    remove_dups (keyOf <$> filter (λ h, metrics.ApplicationId h ≠ "") hs) ∧
  (∀ k method, (k, method) ∈ leaves applications → k.1.1.1 ≠ "") ∧
  ((∀ h, h ∈ hs → metrics.ApplicationId h = "") → applications = ∅).
Proof.
  simpl. split_and!.
  - intros k. apply is_Some_lookupLeaf.
  - apply NoDup_Permutation;
      [apply NoDup_leaf_keys | apply NoDup_remove_dups |].
    intros k. rewrite elem_of_remove_dups. split.
    + intros ([k' method] & -> & Hin%elem_of_leaves)%list_elem_of_fmap.
      destruct (proj1 (is_Some_lookupLeaf c hs k')) as (h & Hh & Hne & Hk);
        [by eexists|].
      apply list_elem_of_fmap. exists h. split; [done|].
      by apply list_elem_of_filter.
    + intros (h & -> & [Hne Hh]%list_elem_of_filter)%list_elem_of_fmap.
      destruct (proj2 (is_Some_lookupLeaf c hs (keyOf h))) as [method Hm].
      { by exists h. }
      apply list_elem_of_fmap. exists (keyOf h, method).
      split; [done|]. by apply elem_of_leaves.
  - intros k method Hin%elem_of_leaves.
    destruct (proj1 (is_Some_lookupLeaf c hs k)) as (h & _ & Hne & <-);
      [by eexists|done].
  - apply calculateMetrics_unattributable.
Qed.

(** *** Status counters and stream counts of a leaf *)

Lemma StatusCodes_foldl_record hs (method : Method S) :
  StatusCodes (foldl HttpStartStopCollector.record method hs) =
  foldl increment (StatusCodes method) (metrics.StatusCode <$> hs).
Proof.
  revert method. induction hs as [|h hs IH]; intros method; [done|].
  by rewrite /= IH.
Qed.

Lemma ContentLength_foldl_record hs (method : Method S) :
  ContentLength (foldl HttpStartStopCollector.record method hs) =
  foldl quantile.Insert (ContentLength method)
    ((λ h, Go.float64 (metrics.ContentLength h)) <$> hs).
Proof.
  revert method. induction hs as [|h hs IH]; intros method; [done|].
  by rewrite /= IH.
Qed.

Lemma ClientDuration_foldl_record hs (method : Method S) :
  ClientDuration (foldl HttpStartStopCollector.record method hs) =
  foldl quantile.Insert (ClientDuration method)
    ((λ h, Go.float64 (metrics.ClientDuration h)) <$> hs).
Proof.
  revert method. induction hs as [|h hs IH]; intros method; [done|].
  by rewrite /= IH.
Qed.

Lemma ServerDuration_foldl_record hs (method : Method S) :
  ServerDuration (foldl HttpStartStopCollector.record method hs) =
  foldl quantile.Insert (ServerDuration method)
    ((λ h, Go.float64 (metrics.ServerDuration h)) <$> hs).
Proof.
  revert method. induction hs as [|h hs IH]; intros method; [done|].
  by rewrite /= IH.
Qed.

(** A fresh stream counts its inserts, modulo the width of [int]. *)
Lemma Count_foldl_Insert `{!quantile.Counting S} quantiles (vs : list float) :
  (quantile.Count (foldl quantile.Insert (quantile.NewTargeted quantiles) vs)).1 =
  Go.int64 (Z.of_nat (length vs)).
Proof.
  induction vs as [|v vs IH] using rev_ind.
  - by rewrite /= quantile.Count_NewTargeted.
  - rewrite foldl_snoc quantile.Count_Insert IH int64_succ length_app /=.
    f_equal. lia.
Qed.

(** Increments of different keys commute, so the counters do not depend
    on the order of the batch. *)
Lemma increment_comm (statusCodes : gmap Z Z) (a b : Z) :
  increment (increment statusCodes a) b = increment (increment statusCodes b) a.
Proof.
  rewrite /increment. destruct (decide (a = b)) as [->|Hne]; [done|].
  rewrite !lookup_insert_ne //. by apply insert_insert_ne.
Qed.

Lemma foldl_increment_Permutation (codes codes' : list Z) :
  codes ≡ₚ codes' →
  ∀ statusCodes, foldl increment statusCodes codes = foldl increment statusCodes codes'.
Proof.
  induction 1 as [|x l l' _ IH|x y l|l l' l'' _ IH1 _ IH2]; intros statusCodes; simpl.
  - done.
  - apply IH.
  - by rewrite increment_comm.
  - by rewrite IH1.
Qed.

Lemma total_nonneg (statusCodes : gmap Z Z) :
  (∀ code v, statusCodes !! code = Some v → 0 ≤ v) → 0 ≤ total statusCodes.
Proof.
  rewrite /total.
  apply (map_fold_weak_ind
           (λ r (m : gmap Z Z), (∀ code v, m !! code = Some v → 0 ≤ v) → 0 ≤ r)).
  - done.
  - intros code v m r Hnone IH Hall.
    assert (0 ≤ v) by (apply (Hall code); by rewrite lookup_insert_eq).
    assert (0 ≤ r); [|lia].
    apply IH. intros code' v' Hv'. apply (Hall code').
    rewrite lookup_insert_ne //. congruence.
Qed.

Lemma total_insert_fresh (statusCodes : gmap Z Z) code v :
  statusCodes !! code = None →
  total (<[code := v]> statusCodes) = v + total statusCodes.
Proof.
  intros Hnone. rewrite /total map_fold_insert_L //. intros. lia.
Qed.

Lemma total_delete (statusCodes : gmap Z Z) code v :
  statusCodes !! code = Some v →
  total statusCodes = v + total (delete code statusCodes).
Proof.
  intros Hv. rewrite /total.
  rewrite (map_fold_delete_L _ _ code v statusCodes) //. intros. lia.
Qed.

(** While the total stays below the largest [int64], one increment adds
    one to the total and keeps every counter positive. *)
Lemma total_increment (statusCodes : gmap Z Z) code :
  (∀ code' v, statusCodes !! code' = Some v → 0 < v) →
  total statusCodes < Go.MaxInt →
  total (increment statusCodes code) = total statusCodes + 1 ∧
  (∀ code' v, increment statusCodes code !! code' = Some v → 0 < v).
Proof.
  intros Hpos Hlt. rewrite /increment /Go.MaxInt in Hlt |- *.
  assert (0 ≤ default 0 (statusCodes !! code) ≤ total statusCodes) as Hv.
  { destruct (statusCodes !! code) as [v|] eqn:Hcode; simpl.
    - pose proof (Hpos _ _ Hcode). rewrite (total_delete _ _ _ Hcode).
      assert (0 ≤ total (delete code statusCodes)); [|lia].
      apply total_nonneg. intros code' v' [_ Hv']%lookup_delete_Some.
      apply Hpos in Hv'. lia.
    - split; [done|]. apply total_nonneg. intros code' v' Hv'%Hpos. lia. }
  rewrite (int64_id (default 0 (statusCodes !! code) + 1)); [|lia]. split.
  - destruct (statusCodes !! code) as [v|] eqn:Hcode; simpl in *.
    + rewrite -insert_delete_eq total_insert_fresh; [|apply lookup_delete_eq].
      rewrite (total_delete _ _ _ Hcode). lia.
    + rewrite total_insert_fresh //. lia.
  - intros code' v'. destruct (decide (code = code')) as [<-|Hne].
    + rewrite lookup_insert_eq. intros [= <-]. lia.
    + rewrite lookup_insert_ne //. apply Hpos.
Qed.

Lemma total_foldl_increment (codes : list Z) :
  Z.of_nat (length codes) ≤ Go.MaxInt →
  total (foldl increment ∅ codes) = Z.of_nat (length codes) ∧
  (∀ code v, foldl increment ∅ codes !! code = Some v → 0 < v).
Proof.
  induction codes as [|code codes IH] using rev_ind; intros Hlen.
  - by rewrite /total /= map_fold_empty.
  - rewrite length_app /= in Hlen. rewrite foldl_snoc length_app /=.
    destruct IH as [IHt IHp]; [lia|].
    destruct (total_increment (foldl increment ∅ codes) code) as [Ht Hp];
      [done|lia|].
    split; [lia|done].
Qed.

Lemma leaf_counts `{!quantile.Counting S} c hs k (method : Method S) :
  lookupLeaf (HttpStartStopCollector.calculateMetrics c hs) k = Some method →
  StatusCodes method = foldl increment ∅ (metrics.StatusCode <$> recordsAt k hs) ∧
  let n := Go.int64 (Z.of_nat (length (recordsAt k hs))) in
  (quantile.Count (ContentLength method)).1 = n ∧
  (quantile.Count (ClientDuration method)).1 = n ∧
  (quantile.Count (ServerDuration method)).1 = n.
Proof.
  rewrite lookupLeaf_calculateMetrics.
  destruct (recordsAt k hs) as [|r rs] eqn:Hrs; [done|]. intros [= <-].
  rewrite StatusCodes_foldl_record ContentLength_foldl_record
    ClientDuration_foldl_record ServerDuration_foldl_record.
  rewrite /HttpStartStopCollector.newMethod /= -/HttpStartStopCollector.newMethod.
  split; [done|].
  pose proof (Count_foldl_Insert [0.50; 0.90; 0.99]%float) as HC. simpl in HC.
  split_and!.
  - rewrite (HC (_ :: _)) /= length_fmap //.
  - rewrite (HC (_ :: _)) /= length_fmap //.
  - rewrite (HC (_ :: _)) /= length_fmap //.
Qed.

(** C3: at every leaf of the tree returned by [calculateMetrics] the
    status-code counts add up to the number of records of the batch that
    were aggregated there, and each of the three streams counts that same
    number (for a batch that fits a slice, so at most [MaxInt] records);
    in Scenario A the leaf holds the counts 200 ↦ 2 and 500 ↦ 1 and its
    response-size stream counts 3. *)
Theorem leaf_counts_its_records `{!quantile.Counting S}
    (c : HttpStartStopCollector.t) :
  (∀ hs k (method : Method S),
     Z.of_nat (length hs) ≤ Go.MaxInt →
     lookupLeaf (HttpStartStopCollector.calculateMetrics c hs) k = Some method →
     let n := Z.of_nat (length (recordsAt k hs)) in
     total (StatusCodes method) = n ∧
     (quantile.Count (ContentLength method)).1 = n ∧
     (quantile.Count (ClientDuration method)).1 = n ∧
     (quantile.Count (ServerDuration method)).1 = n) ∧
  (∃ method : Method S,
     lookupLeaf (HttpStartStopCollector.calculateMetrics c scenarios.A)
       ("a1", "i1", "/x", "GET") = Some method ∧
     StatusCodes method = {[ 200 := 2; 500 := 1 ]} ∧
     (quantile.Count (ContentLength method)).1 = 3).
Proof.
  split.
  - intros hs k method Hlen Hleaf.
    destruct (leaf_counts _ _ _ _ Hleaf) as (Hcodes & Hcounts).
    assert (Z.of_nat (length (recordsAt k hs)) ≤ Go.MaxInt) as Hn.
    { pose proof (length_filter (contributes k) hs). rewrite /recordsAt. lia. }
    cbv zeta in *. rewrite int64_id in Hcounts; [|rewrite /Go.MaxInt in Hn; lia].
    split; [|done]. rewrite Hcodes.
    destruct (total_foldl_increment (metrics.StatusCode <$> recordsAt k hs)) as [Ht _].
    { by rewrite length_fmap. }
    by rewrite Ht length_fmap.
  - destruct (lookupLeaf (HttpStartStopCollector.calculateMetrics c scenarios.A)
                ("a1", "i1", "/x", "GET")) as [method|] eqn:Hleaf.
    + exists method. split; [done|].
      destruct (leaf_counts _ _ _ _ Hleaf) as (-> & -> & _).
      split; by vm_compute.
    + by rewrite lookupLeaf_calculateMetrics in Hleaf.
Qed.

Lemma leaf_keys_Permutation c hs hs' k :
  hs ≡ₚ hs' →
  k ∈ (leaves (HttpStartStopCollector.calculateMetrics c hs : Applications S)).*1 →
  k ∈ (leaves (HttpStartStopCollector.calculateMetrics c hs' : Applications S)).*1.
Proof.
  intros Hperm ([k' method] & -> & Hin%elem_of_leaves)%list_elem_of_fmap.
  destruct (proj1 (is_Some_lookupLeaf c hs k')) as (h & Hh & Hk); [by eexists|].
  destruct (proj2 (is_Some_lookupLeaf c hs' k')) as [method' Hm'].
  { exists h. split; [by rewrite -Hperm|done]. }
  apply list_elem_of_fmap. exists (k', method'). split; [done|].
  by apply elem_of_leaves.
Qed.

(** C8: the tree is a function of the batch alone, so two runs on the same
    batch give equal trees; and a permuted batch gives the same leaves,
    with equal status-code maps and equal counts in all three streams. *)
Theorem calculateMetrics_order_independent `{!quantile.Counting S} :
  (∀ c c' hs,
     (HttpStartStopCollector.calculateMetrics c hs : Applications S) =
     HttpStartStopCollector.calculateMetrics c' hs) ∧
  (∀ c hs hs',
     hs ≡ₚ hs' →
     let applications : Applications S := HttpStartStopCollector.calculateMetrics c hs in
     let applications' : Applications S := HttpStartStopCollector.calculateMetrics c hs' in
     (leaves applications).*1 ≡ₚ (leaves applications').*1 ∧
     ∀ k method,
       lookupLeaf applications k = Some method →
       ∃ method',
         lookupLeaf applications' k = Some method' ∧
         StatusCodes method' = StatusCodes method ∧
         (quantile.Count (ContentLength method')).1 =
           (quantile.Count (ContentLength method)).1 ∧
         (quantile.Count (ClientDuration method')).1 =
           (quantile.Count (ClientDuration method)).1 ∧
         (quantile.Count (ServerDuration method')).1 =
           (quantile.Count (ServerDuration method)).1).
Proof.
  split; [done|]. intros c hs hs' Hperm. simpl. split.
  - apply NoDup_Permutation; [apply NoDup_leaf_keys..|].
    intros k. split; by apply leaf_keys_Permutation.
  - intros k method Hleaf.
    assert (recordsAt k hs ≡ₚ recordsAt k hs') as Hrs
      by by apply filter_Permutation.
    destruct (lookupLeaf (HttpStartStopCollector.calculateMetrics c hs') k)
      as [method'|] eqn:Hleaf'.
    + exists method'. split; [done|].
      destruct (leaf_counts _ _ _ _ Hleaf) as (-> & -> & -> & ->).
      destruct (leaf_counts _ _ _ _ Hleaf') as (-> & -> & -> & ->).
      rewrite -(Permutation_length Hrs). split; [|done].
      apply foldl_increment_Permutation. by rewrite Hrs.
    + assert (is_Some (lookupLeaf
                (HttpStartStopCollector.calculateMetrics c hs' : Applications S) k))
        as [? Hsome]; [|congruence].
      apply is_Some_lookupLeaf.
      destruct (proj1 (is_Some_lookupLeaf c hs k)) as (h & Hh & Hk); [by eexists|].
      exists h. by rewrite -Hperm.
Qed.

End Aggregation.

(** ** Walking maps and slices *)

Lemma bind_assoc {A B C : Type} (f : A → list B) (g : B → list C) (xs : list A) :
  (xs ≫= f) ≫= g = xs ≫= (λ x, f x ≫= g).
Proof.
  induction xs as [|x xs IH]; [done|].
  by rewrite !bind_cons bind_app IH.
Qed.

Lemma rangeSlice_Done {A B : Type} (body : A → Go.Outcome (list B))
    (out : A → list B) (xs : list A) :
  (∀ x, x ∈ xs → body x = Go.Done (out x)) →
  Go.rangeSlice body xs = Go.Done (xs ≫= out).
Proof.
  induction xs as [|x xs IH]; intros Hbody; [done|].
  rewrite /= Hbody; [|left]. rewrite /= IH; [done|].
  intros y Hy. apply Hbody. by right.
Qed.

Lemma rangeEntries_Done {K V B : Type} (body : K → V → Go.Outcome (V * list B))
    (node : K → V → V) (out : K → V → list B) (entries : list (K * V)) :
  (∀ k v, (k, v) ∈ entries → body k v = Go.Done (node k v, out k v)) →
  Go.rangeEntries body entries =
    Go.Done ((λ entry, (entry.1, node entry.1 entry.2)) <$> entries,
             entries ≫= λ entry, out entry.1 entry.2).
Proof.
  induction entries as [|[k v] entries IH]; intros Hbody; [done|].
  rewrite /= Hbody; [|left]. rewrite /= IH; [done|].
  intros k' v' Hin. apply Hbody. by right.
Qed.

Lemma walked_keys {V : Type} (node : V → V) (entries : list (string * V)) :
  ((λ entry : string * V, (entry.1, node entry.2)) <$> entries).*1 = entries.*1.
Proof. induction entries as [|entry entries IH]; [done|]. simpl. by f_equal. Qed.

Lemma lookup_walked {V : Type} (node : V → V) (m : gmap string V) (k : string) :
  walked node m !! k = node <$> m !! k.
Proof.
  rewrite /walked. destruct (m !! k) as [v|] eqn:Hk; simpl.
  - apply elem_of_list_to_map_1.
    + rewrite walked_keys. apply NoDup_fst_map_to_list.
    + apply list_elem_of_fmap. exists (k, v). split; [done|].
      by apply elem_of_map_to_list.
  - apply not_elem_of_list_to_map_1. rewrite walked_keys.
    intros ([k' v] & -> & Hin%elem_of_map_to_list)%list_elem_of_fmap.
    simpl in *. congruence.
Qed.

Lemma rangeMap_Done {V B : Type} (body : string → V → Go.Outcome (V * list B))
    (node : V → V) (out : string → V → list B) (m : gmap string V) :
  (∀ k v, m !! k = Some v → body k v = Go.Done (node v, out k v)) →
  Go.rangeMap body m =
    Go.Done (walked node m, map_to_list m ≫= λ entry, out entry.1 entry.2).
Proof.
  intros Hbody. rewrite /Go.rangeMap /walked.
  rewrite (rangeEntries_Done body (λ _, node) out) //.
  intros k v Hin%elem_of_map_to_list. by apply Hbody.
Qed.

Lemma head_omap_app {A B : Type} (f : A → option B) (xs ys : list A) :
  head (omap f (xs ++ ys)) =
    match head (omap f xs) with
    | Some y => Some y
    | None => head (omap f ys)
    end.
Proof. rewrite omap_app. by destruct (omap f xs). Qed.

Lemma bind_singleton_fmap {A B : Type} (f : A → B) (xs : list A) :
  xs ≫= (λ x, [f x]) = f <$> xs.
Proof. induction xs as [|x xs IH]; [done|]. by rewrite bind_cons IH. Qed.

(** A loop whose body panics with the first error among what it is about
    to send panics with the first error among all that the loop is about
    to send, and else sends it all. *)
Lemma rangeSlice_outcome {A B : Type} (err : B → option string)
    (body : A → Go.Outcome (list B)) (out : A → list B) (xs : list A) :
  (∀ x, body x =
          match head (omap err (out x)) with
          | Some e => Go.Panic e
          | None => Go.Done (out x)
          end) →
  Go.rangeSlice body xs =
    match head (omap err (xs ≫= out)) with
    | Some e => Go.Panic e
    | None => Go.Done (xs ≫= out)
    end.
Proof.
  intros Hbody. induction xs as [|x xs IH]; [done|].
  rewrite bind_cons head_omap_app /= Hbody IH.
  destruct (head (omap err (out x))); [done|]. simpl.
  by destruct (head (omap err (xs ≫= out))).
Qed.

Lemma rangeEntries_outcome {K V B : Type} (err : B → option string)
    (body : K → V → Go.Outcome (V * list B))
    (node : K → V → V) (out : K → V → list B) (entries : list (K * V)) :
  (∀ k v, body k v =
            match head (omap err (out k v)) with
            | Some e => Go.Panic e
            | None => Go.Done (node k v, out k v)
            end) →
  Go.rangeEntries body entries =
    match head (omap err (entries ≫= λ entry, out entry.1 entry.2)) with
    | Some e => Go.Panic e
    | None =>
        Go.Done ((λ entry, (entry.1, node entry.1 entry.2)) <$> entries,
                 entries ≫= λ entry, out entry.1 entry.2)
    end.
Proof.
  intros Hbody. induction entries as [|[k v] entries IH]; [done|].
  rewrite bind_cons head_omap_app /= Hbody IH.
  destruct (head (omap err (out k v))); [done|]. simpl.
  by destruct (head (omap err (entries ≫= _))).
Qed.

Lemma rangeMap_outcome {V B : Type} (err : B → option string)
    (body : string → V → Go.Outcome (V * list B))
    (node : V → V) (out : string → V → list B) (m : gmap string V) :
  (∀ k v, body k v =
            match head (omap err (out k v)) with
            | Some e => Go.Panic e
            | None => Go.Done (node v, out k v)
            end) →
  Go.rangeMap body m =
    match head (omap err (map_to_list m ≫= λ entry, out entry.1 entry.2)) with
    | Some e => Go.Panic e
    | None => Go.Done (walked node m, map_to_list m ≫= λ entry, out entry.1 entry.2)
    end.
Proof.
  intros Hbody.
  rewrite /Go.rangeMap /walked (rangeEntries_outcome err body (λ _, node) out) //.
  by destruct (head (omap err _)).
Qed.

(** ** The walk over the aggregation tree *)

Section Emission.
Context {S : Type} `{!quantile.Stream S} `{!prometheus.Exposition}.
Implicit Types (applications : Applications S) (k : LeafKey).
Implicit Types (c : HttpStartStopCollector.t) (stream : S).

Lemma observes_refl stream : quantile.observes stream stream.
Proof. by split. Qed.

Lemma observes_trans (s1 s2 s3 : S) :
  quantile.observes s1 s2 → quantile.observes s2 s3 → quantile.observes s1 s3.
Proof.
  intros [Hc1 Hq1] [Hc2 Hq2]. split; [congruence|].
  intros q. by rewrite Hq1.
Qed.

(** Reporting a stream leaves what it answers as it was. *)
Lemma reported_observes `{!quantile.NonDestructive S} stream :
  quantile.observes (reported stream) stream.
Proof.
  rewrite /reported.
  eapply observes_trans; [apply quantile.Count_observes|].
  eapply observes_trans; [apply quantile.Query_observes|].
  eapply observes_trans; [apply quantile.Query_observes|].
  eapply observes_trans; [apply quantile.Query_observes|].
  apply quantile.Samples_observes.
Qed.

Lemma head_omap_None {A B : Type} (f : A → option B) (xs : list A) :
  head (omap f xs) = None ↔ Forall (λ x, f x = None) xs.
Proof.
  induction xs as [|x xs IH]; [by split|].
  rewrite Forall_cons /=. destruct (f x); [by split; [|intros []]|].
  rewrite IH. by split; [|intros []].
Qed.

Lemma validate_accepted desc (labelValues : list string) :
  prometheus.descError desc = None →
  length labelValues = length (prometheus.variableLabels desc) →
  Forall (λ val, prometheus.labelValueError val = None) labelValues →
  prometheus.validate desc labelValues = None.
Proof.
  intros Hdesc Hlen Hvals.
  rewrite /prometheus.validate Hdesc /prometheus.validateLabelValues.
  rewrite decide_True //. by apply head_omap_None.
Qed.

Lemma reportSummary_Done `{!quantile.NonDestructive S} desc stream
    (applicationID instanceID uri method : string) :
  prometheus.descError desc = None →
  length (prometheus.variableLabels desc) = 4%nat →
  Forall (λ val, prometheus.labelValueError val = None)
         [applicationID; instanceID; uri; method] →
  HttpStartStopCollector.reportSummary desc stream applicationID instanceID uri method =
    Go.Done (reported stream,
             [summaryOf desc stream (applicationID, instanceID, uri, method)]).
Proof.
  intros Hdesc Hlen Hvals.
  rewrite /HttpStartStopCollector.reportSummary /prometheus.MustNewConstSummary
    /prometheus.NewConstSummary validate_accepted //=.
  rewrite /summaryOf /reported /=.
  set (s1 := (quantile.Samples stream).2).
  set (s2 := (quantile.Query s1 0.5%float).2).
  set (s3 := (quantile.Query s2 0.9%float).2).
  set (s4 := (quantile.Query s3 0.99%float).2).
  assert (quantile.observes s1 stream) as Ho1
    by apply quantile.Samples_observes.
  assert (quantile.observes s2 stream) as Ho2.
  { eapply observes_trans; [apply quantile.Query_observes|done]. }
  assert (quantile.observes s3 stream) as Ho3.
  { eapply observes_trans; [apply quantile.Query_observes|done]. }
  assert (quantile.observes s4 stream) as Ho4.
  { eapply observes_trans; [apply quantile.Query_observes|done]. }
  destruct Ho1 as [_ Hq1], Ho2 as [_ Hq2], Ho3 as [_ Hq3], Ho4 as [Hn4 _].
  by rewrite Hq1 Hq2 Hq3 Hn4.
Qed.

Lemma descriptions_arity namespace metricsStore :
  let c := NewHttpStartStopCollector namespace metricsStore in
  length (prometheus.variableLabels (HttpStartStopCollector.requestTotalDesc c)) = 5%nat ∧
  length (prometheus.variableLabels
            (HttpStartStopCollector.responseSizeBytesDesc c)) = 4%nat ∧
  length (prometheus.variableLabels
            (HttpStartStopCollector.clientRequestDurationNanosecondsDesc c)) = 4%nat ∧
  length (prometheus.variableLabels
            (HttpStartStopCollector.serverRequestDurationNanosecondsDesc c)) = 4%nat.
Proof. done. Qed.

Lemma reportRequestTotal_Done c (requestTotal statusCode : Z)
    (applicationID instanceID uri method : string) :
  prometheus.descError (HttpStartStopCollector.requestTotalDesc c) = None →
  length (prometheus.variableLabels (HttpStartStopCollector.requestTotalDesc c)) = 5%nat →
  Forall (λ val, prometheus.labelValueError val = None)
         [applicationID; instanceID; uri; method; strconv.Itoa statusCode] →
  HttpStartStopCollector.reportRequestTotal c requestTotal
    applicationID instanceID uri method (strconv.Itoa statusCode) =
    Go.Done [counterOf (HttpStartStopCollector.requestTotalDesc c)
               (applicationID, instanceID, uri, method) (statusCode, requestTotal)].
Proof.
  intros Hdesc Hlen Hvals.
  by rewrite /HttpStartStopCollector.reportRequestTotal /prometheus.MustNewConstMetric
    /prometheus.NewConstMetric validate_accepted.
Qed.

(** The label values of a leaf that the layer does not refuse: those of
    its summaries and those of each of its counters. *)
Lemma labelValuesOf_accepted (leaf : LeafKey * Method S) :
  Forall (λ val, prometheus.labelValueError val = None) (labelValuesOf leaf) →
  Forall (λ val, prometheus.labelValueError val = None)
         [leaf.1.1.1.1; leaf.1.1.1.2; leaf.1.1.2; leaf.1.2] ∧
  ∀ entry, entry ∈ map_to_list (StatusCodes leaf.2) →
    Forall (λ val, prometheus.labelValueError val = None)
           [leaf.1.1.1.1; leaf.1.1.1.2; leaf.1.1.2; leaf.1.2; strconv.Itoa entry.1].
Proof.
  rewrite /labelValuesOf. intros [Hpath Hcodes]%Forall_app. split; [done|].
  intros entry Hentry.
  apply (Forall_app _ [_; _; _; _] [_]). split; [done|].
  apply Forall_singleton. rewrite Forall_forall in Hcodes. apply Hcodes.
  apply list_elem_of_fmap. exists entry.1. split; [done|].
  apply list_elem_of_fmap. by exists entry.
Qed.

Lemma reportMethod_Done `{!quantile.NonDestructive S} namespace metricsStore
    (applicationID instanceID uriKey methodKey : string) (method : Method S) :
  let c := NewHttpStartStopCollector namespace metricsStore in
  accepted c →
  Forall (λ val, prometheus.labelValueError val = None)
         (labelValuesOf ((applicationID, instanceID, uriKey, methodKey), method)) →
  HttpStartStopCollector.reportMethod c applicationID instanceID uriKey methodKey method =
    Go.Done (reportedMethod method,
             observationsOf c ((applicationID, instanceID, uriKey, methodKey), method)).
Proof.
  intros c (Htotal & Hsize & Hclient & Hserver)
    [Hpath Hcodes]%labelValuesOf_accepted.
  simpl in Hpath, Hcodes.
  rewrite /HttpStartStopCollector.reportMethod
    /HttpStartStopCollector.reportResponseSize
    /HttpStartStopCollector.reportClientRequestDuration
    /HttpStartStopCollector.reportServerRequestDuration.
  rewrite !reportSummary_Done //=.
  rewrite (rangeSlice_Done _
    (λ entry, [counterOf (HttpStartStopCollector.requestTotalDesc c)
                 (applicationID, instanceID, uriKey, methodKey) entry]));
    [|by intros [statusCode requestTotal] Hentry;
         apply reportRequestTotal_Done; [..|apply (Hcodes _ Hentry)]].
  rewrite /= /observationsOf /=. do 5 f_equal.
Qed.

Lemma labelled_leaf applications (applicationID instanceID uriKey methodKey : string)
    application instance uri (method : Method S) :
  labelled applications →
  applications !! applicationID = Some application →
  Instances application !! instanceID = Some instance →
  Uris instance !! uriKey = Some uri →
  Methods uri !! methodKey = Some method →
  Forall (λ val, prometheus.labelValueError val = None)
         (labelValuesOf ((applicationID, instanceID, uriKey, methodKey), method)).
Proof.
  rewrite /labelled Forall_forall. intros Hall Happ Hinst Huri Hmeth.
  apply Hall, elem_of_leaves.
  by rewrite /lookupLeaf /= Happ /= Hinst /= Huri.
Qed.

(** The walk, when the exposition layer accepts the collector's
    descriptions and the label values of the tree: every leaf is reported
    once, in the order of the walk. *)
Lemma reportMetrics_Done `{!quantile.NonDestructive S} namespace metricsStore
    applications :
  let c := NewHttpStartStopCollector namespace metricsStore in
  accepted c →
  labelled applications →
  HttpStartStopCollector.reportMetrics c applications =
    Go.Done (reportedTree applications, leaves applications ≫= observationsOf c).
Proof.
  intros c Hc Hvals. rewrite /HttpStartStopCollector.reportMetrics /reportedTree /leaves.
  rewrite !bind_assoc.
  erewrite rangeMap_Done; [f_equal; f_equal; apply list_bind_ext; [|done]|].
  2:{ intros applicationID application Happ.
    erewrite rangeMap_Done; [reflexivity|].
    intros instanceID instance Hinst.
    erewrite rangeMap_Done; [reflexivity|].
    intros uriKey uri Huri.
    erewrite rangeMap_Done; [reflexivity|].
    intros methodKey method Hmeth.
    apply reportMethod_Done; [done|]. by eapply labelled_leaf. }
  intros [applicationID application]. rewrite /= !bind_assoc.
  apply list_bind_ext; [|done]. intros [instanceID instance].
  rewrite /= !bind_assoc.
  apply list_bind_ext; [|done]. intros [uriKey uri].
  rewrite /= !bind_assoc.
  apply list_bind_ext; [|done]. intros [methodKey method].
  by rewrite bind_singleton.
Qed.

Lemma lookupLeaf_reportedTree applications k :
  lookupLeaf (reportedTree applications) k = reportedMethod <$> lookupLeaf applications k.
Proof.
  rewrite /lookupLeaf /reportedTree lookup_walked.
  destruct (applications !! _) as [application|]; [|done].
  rewrite /= lookup_walked.
  destruct (Instances application !! _) as [instance|]; [|done].
  rewrite /= lookup_walked.
  destruct (Uris instance !! _) as [uri|]; [|done].
  by rewrite /= lookup_walked.
Qed.

Lemma validate_None desc (labelValues : list string) :
  prometheus.validate desc labelValues = None ↔
  prometheus.descError desc = None ∧
  length labelValues = length (prometheus.variableLabels desc) ∧
  Forall (λ val, prometheus.labelValueError val = None) labelValues.
Proof.
  split; [|by intros (? & ? & ?); apply validate_accepted].
  rewrite /prometheus.validate /prometheus.validateLabelValues.
  destruct (prometheus.descError desc); [done|].
  destruct (decide _); [|done]. by intros ?%head_omap_None.
Qed.

Lemma reportSummary_outcome desc stream (applicationID instanceID uri method : string) :
  HttpStartStopCollector.reportSummary desc stream applicationID instanceID uri method =
    match
      prometheus.firstRefusal
        [summarySent desc stream (applicationID, instanceID, uri, method)]
    with
    | Some err => Go.Panic err
    | None =>
        Go.Done (reported stream,
                 [summarySent desc stream (applicationID, instanceID, uri, method)])
    end.
Proof.
  rewrite /HttpStartStopCollector.reportSummary /prometheus.MustNewConstSummary
    /prometheus.NewConstSummary /prometheus.firstRefusal /prometheus.refusal /=.
  by destruct (prometheus.validate _ _).
Qed.

Lemma reportRequestTotal_outcome c (requestTotal statusCode : Z)
    (applicationID instanceID uri method : string) :
  HttpStartStopCollector.reportRequestTotal c requestTotal
    applicationID instanceID uri method (strconv.Itoa statusCode) =
    match
      prometheus.firstRefusal
        [counterOf (HttpStartStopCollector.requestTotalDesc c)
           (applicationID, instanceID, uri, method) (statusCode, requestTotal)]
    with
    | Some err => Go.Panic err
    | None =>
        Go.Done [counterOf (HttpStartStopCollector.requestTotalDesc c)
                   (applicationID, instanceID, uri, method) (statusCode, requestTotal)]
    end.
Proof.
  rewrite /HttpStartStopCollector.reportRequestTotal /prometheus.MustNewConstMetric
    /prometheus.NewConstMetric /prometheus.firstRefusal /prometheus.refusal /=.
  by destruct (prometheus.validate _ _).
Qed.

(** A leaf is reported in full, or the walk panics at the first of its
    observations that the exposition layer refuses. *)
Lemma reportMethod_outcome c (applicationID instanceID uriKey methodKey : string)
    (method : Method S) :
  HttpStartStopCollector.reportMethod c applicationID instanceID uriKey methodKey method =
    match
      prometheus.firstRefusal
        (observationsSent c ((applicationID, instanceID, uriKey, methodKey), method))
    with
    | Some err => Go.Panic err
    | None =>
        Go.Done (reportedMethod method,
                 observationsSent c
                   ((applicationID, instanceID, uriKey, methodKey), method))
    end.
Proof.
  rewrite /HttpStartStopCollector.reportMethod
    /HttpStartStopCollector.reportResponseSize
    /HttpStartStopCollector.reportClientRequestDuration
    /HttpStartStopCollector.reportServerRequestDuration.
  rewrite !reportSummary_outcome.
  rewrite (rangeSlice_outcome prometheus.refusal _
    (λ entry, [counterOf (HttpStartStopCollector.requestTotalDesc c)
                 (applicationID, instanceID, uriKey, methodKey) entry]));
    [|by intros [statusCode requestTotal]; apply reportRequestTotal_outcome].
  rewrite bind_singleton_fmap /observationsSent /prometheus.firstRefusal /=.
  destruct (prometheus.refusal (summarySent _ (ContentLength method) _)); [done|].
  destruct (prometheus.refusal (summarySent _ (ClientDuration method) _)); [done|].
  destruct (prometheus.refusal (summarySent _ (ServerDuration method) _)); [done|].
  simpl.
  change (list_omap _ _ prometheus.refusal) with (omap (M := list) prometheus.refusal).
  by destruct (head (omap prometheus.refusal _)).
Qed.

(** The walk sends the observations of every leaf, or panics at the first
    observation, in the order of the walk, that the exposition layer
    refuses. *)
Lemma reportMetrics_outcome c applications :
  HttpStartStopCollector.reportMetrics c applications =
    match prometheus.firstRefusal (leaves applications ≫= observationsSent c) with
    | Some err => Go.Panic err
    | None =>
        Go.Done (reportedTree applications, leaves applications ≫= observationsSent c)
    end.
Proof.
  assert (leaves applications ≫= observationsSent c =
          map_to_list applications ≫= λ a,
            map_to_list (Instances a.2) ≫= λ i,
              map_to_list (Uris i.2) ≫= λ u,
                map_to_list (Methods u.2) ≫= λ m,
                  observationsSent c ((a.1, i.1, u.1, m.1), m.2)) as ->.
  { rewrite /leaves !bind_assoc.
    apply list_bind_ext; [|done]. intros [applicationID application].
    rewrite /= !bind_assoc.
    apply list_bind_ext; [|done]. intros [instanceID instance].
    rewrite /= !bind_assoc.
    apply list_bind_ext; [|done]. intros [uriKey uri].
    rewrite /= !bind_assoc.
    apply list_bind_ext; [|done]. intros [methodKey method].
    by rewrite bind_singleton. }
  rewrite /HttpStartStopCollector.reportMetrics /reportedTree /prometheus.firstRefusal.
  apply (rangeMap_outcome prometheus.refusal _
    (λ application,
       {| Instances := walked (λ instance,
            {| Uris := walked (λ uri,
                 {| Methods := walked reportedMethod (Methods uri) |})
                 (Uris instance) |})
            (Instances application) |})
    (λ applicationID application,
       map_to_list (Instances application) ≫= λ i,
         map_to_list (Uris i.2) ≫= λ u,
           map_to_list (Methods u.2) ≫= λ m,
             observationsSent c ((applicationID, i.1, u.1, m.1), m.2))).
  intros applicationID application.
  rewrite (rangeMap_outcome prometheus.refusal _
    (λ instance,
       {| Uris := walked (λ uri,
            {| Methods := walked reportedMethod (Methods uri) |})
            (Uris instance) |})
    (λ instanceID instance,
       map_to_list (Uris instance) ≫= λ u,
         map_to_list (Methods u.2) ≫= λ m,
           observationsSent c ((applicationID, instanceID, u.1, m.1), m.2)));
    [by destruct (head (omap prometheus.refusal _))|].
  intros instanceID instance.
  rewrite (rangeMap_outcome prometheus.refusal _
    (λ uri, {| Methods := walked reportedMethod (Methods uri) |})
    (λ uriKey uri,
       map_to_list (Methods uri) ≫= λ m,
         observationsSent c ((applicationID, instanceID, uriKey, m.1), m.2)));
    [by destruct (head (omap prometheus.refusal _))|].
  intros uriKey uri.
  rewrite (rangeMap_outcome prometheus.refusal _ reportedMethod
    (λ methodKey method,
       observationsSent c ((applicationID, instanceID, uriKey, methodKey), method)));
    [by destruct (head (omap prometheus.refusal _))|].
  intros methodKey method. apply reportMethod_outcome.
Qed.

(** The observations of a tree are all accepted exactly when the
    descriptions and the label values are; for the descriptions the tree
    must have a leaf with a status code. *)
Lemma firstRefusal_accepted namespace metricsStore applications :
  let c := NewHttpStartStopCollector namespace metricsStore in
  accepted c →
  labelled applications →
  prometheus.firstRefusal (leaves applications ≫= observationsSent c) = None.
Proof.
  intros c (Htotal & Hsize & Hclient & Hserver) Hvals.
  apply head_omap_None, Forall_forall.
  intros m ([k method] & Hm & Hleaf)%list_elem_of_bind.
  rewrite /labelled Forall_forall in Hvals.
  destruct (labelValuesOf_accepted _ (Hvals _ Hleaf)) as [Hpath Hcodes].
  rewrite /observationsSent in Hm.
  apply elem_of_cons in Hm as [->|Hm]; [by apply validate_accepted|].
  apply elem_of_cons in Hm as [->|Hm]; [by apply validate_accepted|].
  apply elem_of_cons in Hm as [->|Hm]; [by apply validate_accepted|].
  apply list_elem_of_fmap in Hm as (entry & -> & Hentry).
  apply validate_accepted; [done..|]. by apply Hcodes.
Qed.



(** A walk that completes has reported every leaf once, in the order of
    the walk, whatever the exposition layer accepts. *)
Lemma reportMetrics_Done_inv c applications applications'
    (out : list prometheus.Metric) :
  HttpStartStopCollector.reportMetrics c applications = Go.Done (applications', out) →
  applications' = reportedTree applications ∧
  out = leaves applications ≫= observationsSent c.
Proof.
  rewrite reportMetrics_outcome.
  destruct (prometheus.firstRefusal _); [done|]. by intros [= <- <-].
Qed.


End Emission.

(** ** The value metrics of a batch *)

Section ValueMetrics.
Context `{!prometheus.Exposition} `{!utils.Normalizer}.
Implicit Types (c : ValueMetricsCollector.t) (valueMetric : metrics.ValueMetric).

Lemma foldl_labels (tags : list (string * string)) (names values : list string) :
  foldl (λ (acc : list string * list string) (tag : string * string),
           (acc.1 ++ [utils.NormalizeName tag.1], acc.2 ++ [tag.2]))
        (names, values) tags =
  (names ++ (utils.NormalizeName <$> tags.*1), values ++ tags.*2).
Proof.
  revert names values. induction tags as [|tag tags IH]; intros names values.
  - by rewrite /= !app_nil_r.
  - by rewrite /= IH /= -!app_assoc.
Qed.

Lemma labels_spec valueMetric :
  ValueMetricsCollector.labels valueMetric =
    (["origin"; "bosh_deployment"; "bosh_job_name"; "bosh_job_id"; "bosh_job_ip";
      "unit"] ++
       (utils.NormalizeName <$> (map_to_list (metrics.Tags valueMetric)).*1),
     [metrics.Origin valueMetric; metrics.Deployment valueMetric;
      metrics.Job valueMetric; metrics.Index valueMetric;
      metrics.IP valueMetric; metrics.Unit valueMetric] ++
       (map_to_list (metrics.Tags valueMetric)).*2).
Proof. by rewrite /ValueMetricsCollector.labels foldl_labels. Qed.

(** The gauge that is constructed for a value metric, or the error with
    which its construction fails. *)
Lemma NewConstMetric_gauge c valueMetric :
  prometheus.NewConstMetric (ValueMetricsCollector.describe c valueMetric)
    prometheus.GaugeValue (metrics.Value valueMetric)
    (ValueMetricsCollector.labels valueMetric).2 =
  match conflict c valueMetric with
  | None => inl (gaugeOf c valueMetric)
  | Some err => inr err
  end.
Proof.
  rewrite /prometheus.NewConstMetric /conflict /prometheus.refusal /gaugeOf
    /ValueMetricsCollector.describe /ValueMetricsCollector.metricName
    /prometheus.NewDesc labels_spec /=.
  by destruct (prometheus.validate _ _).
Qed.

Lemma collect_spec c cycle valueMetric :
  ValueMetricsCollector.collect c cycle valueMetric =
    {| ValueMetricsCollector.valueMetrics := ValueMetricsCollector.valueMetrics cycle;
       ValueMetricsCollector.ch :=
         ValueMetricsCollector.ch cycle ++ option_list (sent c valueMetric);
       ValueMetricsCollector.log :=
         ValueMetricsCollector.log cycle ++ option_list (discarded c valueMetric) |}.
Proof.
  rewrite /ValueMetricsCollector.collect NewConstMetric_gauge /sent /discarded.
  destruct (conflict c valueMetric); by rewrite /= app_nil_r.
Qed.

Lemma foldl_collect c cycle (valueMetrics : list metrics.ValueMetric) :
  foldl (ValueMetricsCollector.collect c) cycle valueMetrics =
    {| ValueMetricsCollector.valueMetrics := ValueMetricsCollector.valueMetrics cycle;
       ValueMetricsCollector.ch :=
         ValueMetricsCollector.ch cycle ++ omap (sent c) valueMetrics;
       ValueMetricsCollector.log :=
         ValueMetricsCollector.log cycle ++ omap (discarded c) valueMetrics |}.
Proof.
  revert cycle. induction valueMetrics as [|valueMetric valueMetrics IH]; intros cycle.
  - rewrite /= !app_nil_r. by destruct cycle.
  - rewrite /= IH collect_spec /= -!app_assoc.
    by destruct (sent c valueMetric), (discarded c valueMetric).
Qed.

Lemma Collect_spec c :
  ValueMetricsCollector.Collect c =
    Go.Done
      {| ValueMetricsCollector.valueMetrics :=
           metrics.GetValueMetrics (ValueMetricsCollector.metricsStore c);
         ValueMetricsCollector.ch :=
           omap (sent c) (metrics.GetValueMetrics (ValueMetricsCollector.metricsStore c));
         ValueMetricsCollector.log :=
           omap (discarded c)
             (metrics.GetValueMetrics (ValueMetricsCollector.metricsStore c)) |}.
Proof. by rewrite /ValueMetricsCollector.Collect foldl_collect. Qed.

End ValueMetrics.

(** ** Decimal numerals *)

(** [Itoa] writes the decimal numeral of its argument: reading the
    numeral back gives the argument. *)
Lemma Itoa_decimal (i : Z) :
  Z.of_int <$> NilZero.int_of_string (strconv.Itoa i) = Some i.
Proof.
  rewrite /strconv.Itoa NilZero.isi.
  - by rewrite /= DecimalZ.of_to.
  - destruct i as [|p|p]; [done| |done]. simpl. intros [= Hnil].
    by apply DecimalPos.Unsigned.to_uint_nonnil in Hnil.
  - destruct i as [|p|p]; [done|done|]. simpl. intros [= Hnil].
    by apply DecimalPos.Unsigned.to_uint_nonnil in Hnil.
Qed.

(** ** The emitted observations *)

Section Observations.
Context {S : Type} `{!quantile.Stream S} `{!quantile.NonDestructive S}.
Context `{!prometheus.Exposition} `{!utils.Normalizer}.


(** C9: a walk over the tree that completes leaves every status-code map
    as it was and every stream answering [Count] and [Query] as before
    (and the walk completes when the exposition layer reports no error
    for the collector's descriptions and for no label value of the tree),
    and a cycle of the value-metrics collector leaves the batch it read
    as it was. *)
Theorem emission_reads_only :
  (∀ namespace metricsStore (applications : Applications S),
     let c := NewHttpStartStopCollector namespace metricsStore in
     (accepted c →
      labelled applications →
      ∃ applications' out,
        HttpStartStopCollector.reportMetrics c applications =
          Go.Done (applications', out)) ∧
     ∀ applications' out,
       HttpStartStopCollector.reportMetrics c applications =
         Go.Done (applications', out) →
       ∀ k,
         match lookupLeaf applications k with
         | None => lookupLeaf applications' k = None
         | Some method =>
             ∃ method',
               lookupLeaf applications' k = Some method' ∧
               StatusCodes method' = StatusCodes method ∧
               quantile.observes (ContentLength method') (ContentLength method) ∧
               quantile.observes (ClientDuration method') (ClientDuration method) ∧
               quantile.observes (ServerDuration method') (ServerDuration method)
         end) ∧
  (∀ c : ValueMetricsCollector.t,
     ∃ cycle,
       ValueMetricsCollector.Collect c = Go.Done cycle ∧
       ValueMetricsCollector.valueMetrics cycle =
         metrics.GetValueMetrics (ValueMetricsCollector.metricsStore c)).
Proof.
  split.
  - intros namespace metricsStore applications c. split.
    { intros Hc Hvals. eexists _, _. by apply reportMetrics_Done. }
    intros applications' out [-> _]%reportMetrics_Done_inv.
    intros k. rewrite lookupLeaf_reportedTree.
    destruct (lookupLeaf applications k) as [method|]; [|done].
    eexists. split; [done|]. split_and!; [done|apply reported_observes..].
  - intros c. eexists. split; [apply Collect_spec|done].
Qed.


(** C5, as the collector does it: a cycle sends, in batch order, one
    gauge for every value metric whose gauge the exposition layer accepts
    and nothing for the others. The gauge is named after the
    normalised origin and name, carries the labels origin,
    bosh_deployment, bosh_job_name, bosh_job_id, bosh_job_ip and unit,
    then one label per tag (the normalised key with the tag's value), and
    has the metric's value. *)
Theorem Collect_sends_accepted_gauges (c : ValueMetricsCollector.t) :
  (∃ cycle,
     ValueMetricsCollector.Collect c = Go.Done cycle ∧
     ValueMetricsCollector.ch cycle =
       omap (sent c) (metrics.GetValueMetrics (ValueMetricsCollector.metricsStore c))) ∧
  (∀ valueMetric,
     match
       prometheus.NewConstMetric (ValueMetricsCollector.describe c valueMetric)
         prometheus.GaugeValue (metrics.Value valueMetric)
         (ValueMetricsCollector.labels valueMetric).2
     with
     | inl m => m = gaugeOf c valueMetric ∧ sent c valueMetric = Some m
     | inr _ => sent c valueMetric = None
     end).
Proof.
  split.
  - eexists. split; [apply Collect_spec|done].
  - intros valueMetric. rewrite NewConstMetric_gauge /sent.
    by destruct (conflict c valueMetric).
Qed.

(** C6: a value metric whose gauge cannot be constructed is logged and
    skipped: the cycle completes, sends exactly what it sends for the
    batch without that metric, and logs one more line; and no cycle of
    the collector ever panics. *)
Theorem Collect_skips_failed_metric (namespace environment : string)
    (httpStartStops : list metrics.HttpStartStop)
    (before after : list metrics.ValueMetric)
    (valueMetric : metrics.ValueMetric) (err : string) :
  let c batch :=
    NewValueMetricsCollector namespace environment
      {| metrics.GetValueMetrics := batch;
         metrics.GetHttpStartStops := httpStartStops |} in
  prometheus.NewConstMetric (ValueMetricsCollector.describe (c []) valueMetric)
    prometheus.GaugeValue (metrics.Value valueMetric)
    (ValueMetricsCollector.labels valueMetric).2 = inr err →
  (∀ c' : ValueMetricsCollector.t,
     ∃ cycle, ValueMetricsCollector.Collect c' = Go.Done cycle) ∧
  (∃ cycle cycle',
     ValueMetricsCollector.Collect (c (before ++ valueMetric :: after)) =
       Go.Done cycle ∧
     ValueMetricsCollector.Collect (c (before ++ after)) = Go.Done cycle' ∧
     ValueMetricsCollector.ch cycle = ValueMetricsCollector.ch cycle' ∧
     ValueMetricsCollector.ch cycle =
       omap (sent (c [])) before ++ omap (sent (c [])) after ∧
     ValueMetricsCollector.log cycle =
       omap (discarded (c [])) before ++
       ["Value Metric `" +:+ metrics.Name valueMetric +:+ "` from `" +:+
        metrics.Origin valueMetric +:+ "` discarded: " +:+ err] ++
       omap (discarded (c [])) after).
Proof.
  intros c Herr. rewrite NewConstMetric_gauge in Herr.
  destruct (conflict (c []) valueMetric) as [err'|] eqn:Hconflict; [|done].
  injection Herr as ->. split.
  - intros c'. eexists. apply Collect_spec.
  - eexists _, _. split; [apply Collect_spec|]. split; [apply Collect_spec|].
    rewrite /= !omap_app /=.
    change (sent (c (before ++ valueMetric :: after))) with (sent (c [])).
    change (sent (c (before ++ after))) with (sent (c [])).
    change (discarded (c (before ++ valueMetric :: after))) with (discarded (c [])).
    by rewrite /sent /discarded Hconflict.
Qed.

End Observations.

(** ** The sketch of the specification *)

(** C7: on a sketch into which nothing was inserted, [Query] returns 0.0
    for every quantile, leaving the sketch as it was, and [Count] returns
    0. *)
Theorem empty_sketch_answers_zero (quantiles : list float) :
  let empty : quantile.Summary := quantile.NewTargeted quantiles in
  (∀ φ, quantile.Query empty φ = (0%float, empty)) ∧
  (quantile.Count empty).1 = 0.
Proof. done. Qed.

Lemma int64_range (z : Z) : - 2 ^ 63 ≤ Go.int64 z < 2 ^ 63.
Proof.
  unfold Go.int64.
  pose proof (Z.mod_pos_bound (z + 2 ^ 63) (2 ^ 64)). lia.
Qed.

Lemma int64_idem (z : Z) : Go.int64 (Go.int64 z) = Go.int64 z.
Proof. apply int64_id, int64_range. Qed.

(** The sketch of the specification counts its inserts and is left as it
    was by every method but [Insert]. *)
#[global] Instance Summary_Counting : quantile.Counting quantile.Summary.
Proof.
  split.
  - done.
  - intros s v. by rewrite /= int64_idem int64_succ.
Qed.

#[global] Instance Summary_NonDestructive : quantile.NonDestructive quantile.Summary.
Proof.
  split.
  - done.
  - intros s q. rewrite /= /quantile.Summary_Query. by destruct (quantile.l s).
  - done.
Qed.

(** ** The earlier revision of the value-metrics collector *)

(** Its constructor panics, so the first value metric whose description
    the exposition layer rejects ends the whole cycle. *)
Lemma valueMetricsCollector_Collect_panics `{!prometheus.Exposition}
    `{!utils.Normalizer} (namespace : string) (c : valueMetricsCollector.t)
    (valueMetric : metrics.ValueMetric) (rest : list metrics.ValueMetric)
    (err : string) :
  metrics.GetValueMetrics (valueMetricsCollector.metricsStore c) =
    valueMetric :: rest →
  prometheus.descError
    (prometheus.NewDesc
       (prometheus.BuildFQName namespace value_metrics_subsystem
          (utils.NormalizeName (metrics.Name valueMetric)))
       ("Cloud Foundry firehose '" +:+ metrics.Name valueMetric +:+ "' value metric.")
       ["origin"; "deployment"; "job"; "index"; "ip"; "unit"] ∅) = Some err →
  valueMetricsCollector.Collect namespace c = Go.Panic err.
Proof.
  intros Hbatch Herr.
  by rewrite /valueMetricsCollector.Collect Hbatch /= /prometheus.MustNewConstMetric
    /prometheus.NewConstMetric /prometheus.validate Herr.
Qed.

(** ** The theorems at the scenarios of the specification *)

Section Scenarios.

#[local] Existing Instance prometheus.checking.
#[local] Existing Instance utils.verbatim.

Lemma accepted_httpStartStop : accepted scenarios.httpStartStop.
Proof. by vm_compute. Qed.

Lemma labelled_aggregated : labelled scenarios.aggregated.
Proof. apply (bool_decide_unpack _). by vm_compute. Qed.

Lemma aggregated_leaf :
  is_Some (lookupLeaf scenarios.aggregated ("a1", "i1", "/x", "GET")).
Proof.
  apply is_Some_lookupLeaf. exists (scenarios.answered 200).
  split; [left|]. by split.
Qed.

Lemma leaf_counts_its_records_witness :
  quantile.Counting quantile.Summary ∧
  Z.of_nat (length scenarios.A) ≤ Go.MaxInt ∧
  ∃ method,
    lookupLeaf scenarios.aggregated ("a1", "i1", "/x", "GET") = Some method ∧
    total (StatusCodes method) = 3 ∧
    (quantile.Count (ContentLength method)).1 = 3 ∧
    (quantile.Count (ClientDuration method)).1 = 3 ∧
    (quantile.Count (ServerDuration method)).1 = 3.
Proof.
  assert (Z.of_nat (length scenarios.A) ≤ Go.MaxInt) as Hlen by by vm_compute.
  split; [apply _|]. split; [done|].
  destruct (leaf_counts_its_records (S := quantile.Summary)
              scenarios.httpStartStop) as [Hall (method & Hleaf & _)].
  exists method. split; [done|].
  exact (Hall scenarios.A ("a1", "i1", "/x", "GET") method Hlen Hleaf).
Defined.

Lemma calculateMetrics_order_independent_witness :
  quantile.Counting quantile.Summary ∧
  scenarios.A ≡ₚ reverse scenarios.A ∧
  (leaves scenarios.aggregated).*1 ≡ₚ
    (leaves (HttpStartStopCollector.calculateMetrics scenarios.httpStartStop
               (reverse scenarios.A) : Applications quantile.Summary)).*1.
Proof.
  assert (scenarios.A ≡ₚ reverse scenarios.A) as Hperm
    by (symmetry; apply reverse_Permutation).
  split; [apply _|]. split; [done|].
  exact (proj1 (proj2 (calculateMetrics_order_independent (S := quantile.Summary))
                  scenarios.httpStartStop scenarios.A (reverse scenarios.A) Hperm)).
Defined.


Lemma emission_reads_only_witness :
  quantile.NonDestructive quantile.Summary ∧
  accepted scenarios.httpStartStop ∧
  labelled scenarios.aggregated ∧
  ∃ applications' out,
    HttpStartStopCollector.reportMetrics scenarios.httpStartStop
      scenarios.aggregated = Go.Done (applications', out) ∧
    ∃ method method',
      lookupLeaf scenarios.aggregated ("a1", "i1", "/x", "GET") = Some method ∧
      lookupLeaf applications' ("a1", "i1", "/x", "GET") = Some method' ∧
      StatusCodes method' = StatusCodes method ∧
      quantile.observes (ContentLength method') (ContentLength method).
Proof.
  split; [apply _|]. split; [apply accepted_httpStartStop|].
  split; [apply labelled_aggregated|].
  destruct (proj1 (emission_reads_only (S := quantile.Summary))
              "firehose" scenarios.store scenarios.aggregated)
    as [Hcompletes Hsame].
  destruct (Hcompletes accepted_httpStartStop labelled_aggregated)
    as (applications' & out & Hwalk).
  exists applications', out. split; [exact Hwalk|].
  destruct aggregated_leaf as [method Hleaf].
  specialize (Hsame applications' out Hwalk ("a1", "i1", "/x", "GET")).
  rewrite Hleaf in Hsame.
  destruct Hsame as (method' & Hleaf' & Hcodes & Hsize & _).
  exists method, method'. exact (conj Hleaf (conj Hleaf' (conj Hcodes Hsize))).
Defined.


Lemma Collect_skips_failed_metric_witness :
  prometheus.NewConstMetric
    (ValueMetricsCollector.describe
       (NewValueMetricsCollector "firehose" "test"
          {| metrics.GetValueMetrics := []; metrics.GetHttpStartStops := [] |})
       (scenarios.conflicting))
    prometheus.GaugeValue
    (metrics.Value (scenarios.conflicting))
    (ValueMetricsCollector.labels (scenarios.conflicting)).2 =
    inr "duplicate label names" ∧
  ∃ cycle cycle',
    ValueMetricsCollector.Collect
      (NewValueMetricsCollector "firehose" "test"
         {| metrics.GetValueMetrics :=
              [scenarios.C] ++ scenarios.conflicting :: [];
            metrics.GetHttpStartStops := [] |}) = Go.Done cycle ∧
    ValueMetricsCollector.Collect
      (NewValueMetricsCollector "firehose" "test"
         {| metrics.GetValueMetrics := [scenarios.C] ++ [];
            metrics.GetHttpStartStops := [] |}) = Go.Done cycle' ∧
    ValueMetricsCollector.ch cycle = ValueMetricsCollector.ch cycle'.
Proof.
  assert (prometheus.NewConstMetric
    (ValueMetricsCollector.describe
       (NewValueMetricsCollector "firehose" "test"
          {| metrics.GetValueMetrics := []; metrics.GetHttpStartStops := [] |})
       (scenarios.conflicting))
    prometheus.GaugeValue
    (metrics.Value (scenarios.conflicting))
    (ValueMetricsCollector.labels (scenarios.conflicting)).2 =
    inr "duplicate label names") as Herr by (vm_compute; reflexivity).
  split; [exact Herr|].
  destruct (proj2 (Collect_skips_failed_metric "firehose" "test" []
                     [scenarios.C] []
                     (scenarios.conflicting)
                     "duplicate label names" Herr))
    as (cycle & cycle' & Hcycle & Hcycle' & Hch & _).
  exists cycle, cycle'. exact (conj Hcycle (conj Hcycle' Hch)).
Defined.


(** C5 fails as it is worded: a value metric whose tag repeats the label
    [origin] is rejected by the exposition layer and no gauge is sent for
    it; and the gauge of Scenario C carries the labels bosh_deployment,
    bosh_job_name, bosh_job_id and bosh_job_ip, not deployment, job, index
    and ip. *)
Lemma Collect_sends_no_gauge_on_conflict :
  ValueMetricsCollector.Collect
    (NewValueMetricsCollector "firehose" "test"
       {| metrics.GetValueMetrics :=
            [scenarios.conflicting];
          metrics.GetHttpStartStops := [] |}) =
    Go.Done
      {| ValueMetricsCollector.valueMetrics :=
           [scenarios.conflicting];
         ValueMetricsCollector.ch := [];
         ValueMetricsCollector.log :=
           ["Value Metric `memory` from `doppler` discarded: duplicate label names"] |} ∧
  ValueMetricsCollector.Collect
    (NewValueMetricsCollector "firehose" "test"
       {| metrics.GetValueMetrics := [scenarios.C];
          metrics.GetHttpStartStops := [] |}) =
    Go.Done
      {| ValueMetricsCollector.valueMetrics := [scenarios.C];
         ValueMetricsCollector.ch :=
           [prometheus.constMetric
              {| prometheus.fqName := "firehose_value_metrics_doppler_memory";
                 prometheus.help :=
                   "Cloud Foundry Firehose 'memory' value metric from 'doppler'.";
                 prometheus.variableLabels :=
                   ["origin"; "bosh_deployment"; "bosh_job_name"; "bosh_job_id";
                    "bosh_job_ip"; "unit"; "az"];
                 prometheus.constLabels := {[ "environment" := "test" ]} |}
              prometheus.GaugeValue 1024%float
              ["doppler"; "cf"; "doppler"; "0"; "10.0.0.1"; "bytes"; "z1"]];
         ValueMetricsCollector.log := [] |}.
Proof. split; vm_compute; reflexivity. Qed.

(** A value metric with a tag value that is not valid UTF-8 is logged and
    skipped by the collector, and ends the cycle of its earlier revision
    when it stands in the deployment. *)
Lemma Collect_discards_refused_label_value :
  ValueMetricsCollector.Collect
    (NewValueMetricsCollector "firehose" "test"
       {| metrics.GetValueMetrics :=
            [scenarios.memory {[ "az" := String "255"%char EmptyString ]}];
          metrics.GetHttpStartStops := [] |}) =
    Go.Done
      {| ValueMetricsCollector.valueMetrics :=
           [scenarios.memory {[ "az" := String "255"%char EmptyString ]}];
         ValueMetricsCollector.ch := [];
         ValueMetricsCollector.log :=
           ["Value Metric `memory` from `doppler` discarded: " +:+
            "label value is not valid UTF-8"] |}.
Proof. vm_compute. reflexivity. Qed.

Lemma valueMetricsCollector_Collect_panics_on_refused_label_value :
  valueMetricsCollector.Collect "firehose"
    {| valueMetricsCollector.metricsStore :=
         {| metrics.GetValueMetrics :=
              [scenarios.memory ∅;
               {| metrics.Origin := "doppler";
                  metrics.Deployment := String "255"%char EmptyString;
                  metrics.Job := "doppler"; metrics.Index := "0";
                  metrics.IP := "10.0.0.1"; metrics.Name := "memory";
                  metrics.Value := 1024%float; metrics.Unit := "bytes";
                  metrics.Tags := ∅ |};
               scenarios.memory ∅];
            metrics.GetHttpStartStops := [] |} |} =
    Go.Panic "label value is not valid UTF-8".
Proof. vm_compute. reflexivity. Qed.

End Scenarios.

(** * Further properties of the collectors *)

(** ** The tree, path by path *)

Lemma int64_add_l (a b : Z) : Go.int64 (Go.int64 a + b) = Go.int64 (a + b).
Proof.
  unfold Go.int64.
  replace ((a + 2 ^ 63) mod 2 ^ 64 - 2 ^ 63 + b + 2 ^ 63)
    with ((a + 2 ^ 63) mod 2 ^ 64 + b) by lia.
  replace (a + b + 2 ^ 63) with ((a + 2 ^ 63) + b) by lia.
  rewrite Zplus_mod_idemp_l. reflexivity.
Qed.

(** A counter after a run of increments: untouched when its code does not
    occur, else raised by the number of occurrences. *)
Lemma lookup_foldl_increment (codes : list Z) (statusCodes : gmap Z Z) (code : Z) :
  foldl increment statusCodes codes !! code =
    match length (filter (λ code', code' = code) codes) with
    | O => statusCodes !! code
    | Datatypes.S n =>
        Some (Go.int64 (default 0 (statusCodes !! code) + Z.of_nat (Datatypes.S n)))
    end.
Proof.
  revert statusCodes. induction codes as [|x codes IH]; intros statusCodes; [done|].
  rewrite /= IH filter_cons. destruct (decide (x = code)) as [->|Hne].
  - rewrite /increment lookup_insert_eq /=.
    destruct (length (filter _ codes)) as [|n]; [done|].
    rewrite int64_add_l. do 2 f_equal. lia.
  - rewrite /increment lookup_insert_ne //.
Qed.

Section Paths.
Context {S : Type} `{!quantile.Stream S}.
Implicit Types (applications : Applications S) (k : LeafKey).
Implicit Types (c : HttpStartStopCollector.t) (hs : list metrics.HttpStartStop).

(** X1: the tree of [calculateMetrics], path by path: a path with no
    attributable record is absent, and the leaf of any other path is made
    from the records of that path alone, in batch order: its counters are
    the increments of their status codes and each of its streams is the
    fresh stream after the inserts of their content lengths (client and
    server durations). *)
Theorem calculateMetrics_leaf_of_path c hs k :
  lookupLeaf (HttpStartStopCollector.calculateMetrics c hs : Applications S) k =
    match recordsAt k hs with
    | [] => None
    | rs =>
        Some
          {| StatusCodes := foldl increment ∅ (metrics.StatusCode <$> rs);
             ContentLength :=
               foldl quantile.Insert (quantile.NewTargeted [0.50; 0.90; 0.99]%float)
                 ((λ h, Go.float64 (metrics.ContentLength h)) <$> rs);
             ClientDuration :=
               foldl quantile.Insert (quantile.NewTargeted [0.50; 0.90; 0.99]%float)
                 ((λ h, Go.float64 (metrics.ClientDuration h)) <$> rs);
             ServerDuration :=
               foldl quantile.Insert (quantile.NewTargeted [0.50; 0.90; 0.99]%float)
                 ((λ h, Go.float64 (metrics.ServerDuration h)) <$> rs) |}
    end.
Proof.
  rewrite lookupLeaf_calculateMetrics.
  destruct (recordsAt k hs) as [|r rs]; [done|]. f_equal.
  rewrite -(StatusCodes_foldl_record (r :: rs) HttpStartStopCollector.newMethod)
    -(ContentLength_foldl_record (r :: rs) HttpStartStopCollector.newMethod)
    -(ClientDuration_foldl_record (r :: rs) HttpStartStopCollector.newMethod)
    -(ServerDuration_foldl_record (r :: rs) HttpStartStopCollector.newMethod).
  by destruct (foldl _ _ _).
Qed.

(** X2: the counter of a status code at a path is the number of records of
    the path with that code, as an [int64]; a code that no record of the
    path has is not a key of the map. For a batch that fits a slice the
    number is exact. *)
Theorem calculateMetrics_counts_each_code c hs k (statusCode : Z) :
  let n :=
    length (filter (λ h, metrics.StatusCode h = statusCode) (recordsAt k hs)) in
  (lookupLeaf (HttpStartStopCollector.calculateMetrics c hs : Applications S) k
     ≫= λ method, StatusCodes method !! statusCode) =
    (if decide (n = O) then None else Some (Go.int64 (Z.of_nat n))) ∧
  (Z.of_nat (length hs) ≤ Go.MaxInt → Go.int64 (Z.of_nat n) = Z.of_nat n).
Proof.
  intros n. split.
  - rewrite lookupLeaf_calculateMetrics.
    assert (length (filter (λ code', code' = statusCode)
                      (metrics.StatusCode <$> recordsAt k hs)) = n) as Hn.
    { subst n. induction (recordsAt k hs) as [|r rs IH]; [done|].
      rewrite fmap_cons !filter_cons.
      destruct (decide (metrics.StatusCode r = statusCode)); simpl; by rewrite IH. }
    clearbody n. destruct (recordsAt k hs) as [|r rs].
    { simpl in *. subst n. done. }
    rewrite /=.
    change (foldl HttpStartStopCollector.record
              (HttpStartStopCollector.record HttpStartStopCollector.newMethod r) rs)
      with (foldl HttpStartStopCollector.record HttpStartStopCollector.newMethod
              (r :: rs)).
    rewrite StatusCodes_foldl_record lookup_foldl_increment Hn.
    by destruct n as [|n'].
  - intros Hlen. apply int64_id.
    pose proof (length_filter (λ h, metrics.StatusCode h = statusCode) (recordsAt k hs)).
    pose proof (length_filter (contributes k) hs).
    subst n. unfold recordsAt, Go.MaxInt in *. lia.
Qed.

Lemma noEmptyBranch_aggregate applications (h : metrics.HttpStartStop) :
  noEmptyBranch applications →
  noEmptyBranch (HttpStartStopCollector.aggregate applications h).
Proof.
  intros Hok. rewrite /HttpStartStopCollector.aggregate.
  destruct (decide _) as [|_]; [done|].
  set (application := default {| Instances := ∅ |} (applications !! _)).
  set (instance := default {| Uris := ∅ |} (Instances application !! _)).
  set (uri := default {| Methods := ∅ |} (Uris instance !! _)).
  assert (map_Forall (λ _, okInstance) (Instances application)) as Happlication.
  { subst application. destruct (applications !! _) as [x|] eqn:Hx; simpl.
    - by destruct (Hok _ _ Hx).
    - apply map_Forall_empty. }
  assert (map_Forall (λ _, okUri) (Uris instance)) as Hinstance.
  { subst instance. destruct (Instances application !! _) as [x|] eqn:Hx; simpl.
    - by destruct (Happlication _ _ Hx).
    - apply map_Forall_empty. }
  assert (map_Forall (λ _, okMethod) (Methods uri)) as Huri.
  { subst uri. destruct (Uris instance !! _) as [x|] eqn:Hx; simpl.
    - by destruct (Hinstance _ _ Hx).
    - apply map_Forall_empty. }
  apply map_Forall_insert_2; [|done].
  split; [apply insert_non_empty|]. apply map_Forall_insert_2; [|done].
  split; [apply insert_non_empty|]. apply map_Forall_insert_2; [|done].
  split; [apply insert_non_empty|]. apply map_Forall_insert_2; [|done].
  apply insert_non_empty.
Qed.

Lemma noEmptyBranch_calculateMetrics c hs :
  noEmptyBranch (HttpStartStopCollector.calculateMetrics c hs : Applications S).
Proof.
  rewrite /HttpStartStopCollector.calculateMetrics.
  assert (noEmptyBranch (∅ : Applications S)) as Hempty by apply map_Forall_empty.
  revert Hempty. generalize (∅ : Applications S).
  induction hs as [|h hs IH]; intros applications Hok; [done|].
  apply IH. by apply noEmptyBranch_aggregate.
Qed.

Lemma noEmptyBranch_leaf applications k (method : Method S) :
  noEmptyBranch applications →
  lookupLeaf applications k = Some method →
  StatusCodes method ≠ ∅.
Proof.
  intros Hok. rewrite /lookupLeaf.
  destruct (applications !! _) as [application|] eqn:Ha; [|done].
  destruct (Hok _ _ Ha) as [_ Hinstances]. simpl.
  destruct (Instances application !! _) as [instance|] eqn:Hi; [|done].
  destruct (Hinstances _ _ Hi) as [_ Huris]. simpl.
  destruct (Uris instance !! _) as [uri|] eqn:Hu; [|done].
  destruct (Huris _ _ Hu) as [_ Hmethods]. simpl.
  intros Hm. exact (Hmethods _ _ Hm).
Qed.

(** X3: [calculateMetrics] builds no empty branch: in the tree it returns
    every application has an instance, every instance a uri, every uri a
    method, and every leaf has counted at least one status code. *)
Theorem calculateMetrics_no_empty_branch c hs :
  let applications : Applications S := HttpStartStopCollector.calculateMetrics c hs in
  noEmptyBranch applications ∧
  (∀ applicationID application,
     applications !! applicationID = Some application →
     Instances application ≠ ∅) ∧
  (∀ k method, lookupLeaf applications k = Some method → StatusCodes method ≠ ∅).
Proof.
  pose proof (noEmptyBranch_calculateMetrics c hs) as Hok. split_and!.
  - done.
  - intros applicationID application Ha. by destruct (Hok _ _ Ha).
  - intros k method. by apply noEmptyBranch_leaf.
Qed.

End Paths.

(** ** A cycle of the HTTP collector *)

Section Cycle.
Context {S : Type} `{!quantile.Stream S} `{!prometheus.Exposition}.
Implicit Types (applications : Applications S) (k : LeafKey).
Implicit Types (c : HttpStartStopCollector.t) (stream : S).

Lemma firstRefusal_None_inv c applications :
  noEmptyBranch applications →
  applications ≠ ∅ →
  prometheus.firstRefusal (leaves applications ≫= observationsSent c) = None →
  accepted c ∧ labelled applications.
Proof.
  intros Hok Hne Hall%head_omap_None. rewrite Forall_forall in Hall.
  assert (∀ leaf, leaf ∈ leaves applications →
                  ∀ m, m ∈ observationsSent c leaf → prometheus.refusal m = None)
    as Hleaf.
  { intros leaf Hin m Hm. apply Hall, list_elem_of_bind. by exists leaf. }
  split.
  - destruct (leaves applications) as [|[k method] rest] eqn:Hleaves.
    { destruct (map_choose _ Hne) as (applicationID & application & Happ).
      destruct (Hok _ _ Happ) as [Hi Hok1].
      destruct (map_choose _ Hi) as (instanceID & instance & Hinst).
      destruct (Hok1 _ _ Hinst) as [Hu Hok2].
      destruct (map_choose _ Hu) as (uriKey & uri & Huri).
      destruct (Hok2 _ _ Huri) as [Hm Hok3].
      destruct (map_choose _ Hm) as (methodKey & method & Hmeth).
      assert (((applicationID, instanceID, uriKey, methodKey), method)
                ∈ leaves applications) as Hin.
      { apply elem_of_leaves. by rewrite /lookupLeaf /= Happ /= Hinst /= Huri. }
      rewrite Hleaves in Hin. by apply elem_of_nil in Hin. }
    assert ((k, method) ∈ (k, method) :: rest) as Hin by left.
    assert (StatusCodes method ≠ ∅) as Hcodes.
    { apply (noEmptyBranch_leaf applications k); [done|].
      apply elem_of_leaves. by rewrite Hleaves. }
    destruct (map_choose _ Hcodes) as (statusCode & requestTotal & Hcode).
    pose proof (Hleaf _ Hin) as Hobs. rewrite /observationsSent in Hobs.
    split_and!.
    + assert (prometheus.refusal
                (counterOf (HttpStartStopCollector.requestTotalDesc c) k
                   (statusCode, requestTotal)) = None) as Hm.
      { apply Hobs. do 3 right. apply list_elem_of_fmap.
        exists (statusCode, requestTotal). split; [done|].
        by apply elem_of_map_to_list. }
      by apply validate_None in Hm as [? _].
    + assert (prometheus.refusal
                (summarySent (HttpStartStopCollector.responseSizeBytesDesc c)
                   (ContentLength method) k) = None) as Hm by (apply Hobs; left).
      by apply validate_None in Hm as [? _].
    + assert (prometheus.refusal
                (summarySent
                   (HttpStartStopCollector.clientRequestDurationNanosecondsDesc c)
                   (ClientDuration method) k) = None) as Hm
        by (apply Hobs; right; left).
      by apply validate_None in Hm as [? _].
    + assert (prometheus.refusal
                (summarySent
                   (HttpStartStopCollector.serverRequestDurationNanosecondsDesc c)
                   (ServerDuration method) k) = None) as Hm
        by (apply Hobs; do 2 right; left).
      by apply validate_None in Hm as [? _].
  - apply Forall_forall. intros [k method] Hin.
    pose proof (Hleaf _ Hin) as Hobs. rewrite /observationsSent in Hobs.
    rewrite /labelValuesOf. apply Forall_app. split.
    + assert (prometheus.refusal
                (summarySent (HttpStartStopCollector.responseSizeBytesDesc c)
                   (ContentLength method) k) = None) as Hm by (apply Hobs; left).
      by apply validate_None in Hm as (_ & _ & ?).
    + apply Forall_forall.
      intros val (statusCode & -> & ([code n] & -> & Hentry)%list_elem_of_fmap)
        %list_elem_of_fmap.
      assert (prometheus.refusal
                (counterOf (HttpStartStopCollector.requestTotalDesc c) k (code, n))
              = None) as Hm.
      { apply Hobs. do 3 right. apply list_elem_of_fmap. by exists (code, n). }
      apply validate_None in Hm as (_ & _ & Hvals). simpl in Hvals.
      rewrite Forall_forall in Hvals. apply Hvals. do 4 right. left.
Qed.

Lemma calculateMetrics_non_empty c (hs : list metrics.HttpStartStop) :
  ¬ Forall (λ h, metrics.ApplicationId h = "") hs →
  (HttpStartStopCollector.calculateMetrics c hs : Applications S) ≠ ∅.
Proof.
  intros (h & Hh & Hne)%not_Forall_Exists%Exists_exists; [|apply _].
  destruct (proj2 (is_Some_lookupLeaf c hs (keyOf h))) as [method Hleaf].
  { by exists h. }
  intros Hempty. by rewrite Hempty lookupLeaf_empty in Hleaf.
Qed.

(** What a cycle comes to: it sends the observations of every leaf of the
    tree it aggregates, unless the exposition layer refuses one of them,
    and then it panics with the error of the first one refused. *)
Lemma Collect_outcome c :
  let applications : Applications S :=
    HttpStartStopCollector.calculateMetrics c
      (metrics.GetHttpStartStops (HttpStartStopCollector.metricsStore c)) in
  HttpStartStopCollector.Collect (S := S) c =
    match prometheus.firstRefusal (leaves applications ≫= observationsSent c) with
    | Some err => Go.Panic err
    | None => Go.Done (leaves applications ≫= observationsSent c)
    end.
Proof.
  intros applications.
  rewrite /HttpStartStopCollector.Collect reportMetrics_outcome /=.
  fold applications. by destruct (prometheus.firstRefusal _).
Qed.

(** X4: a cycle of the HTTP collector sends the observations of every
    leaf of the tree it aggregates, unless the exposition layer refuses
    one of them: then it panics with the error of the first one refused,
    in the order of the walk. With nothing attributable in the store it
    sends nothing. Otherwise it completes exactly when the layer reports
    no error for the four descriptions and for no label value of the
    tree. *)
Theorem Collect_panics_on_first_refusal (namespace : string)
    (metricsStore : metrics.Store) :
  let c := NewHttpStartStopCollector namespace metricsStore in
  let batch := metrics.GetHttpStartStops metricsStore in
  let applications : Applications S := HttpStartStopCollector.calculateMetrics c batch in
  let observations := leaves applications ≫= observationsSent c in
  HttpStartStopCollector.Collect (S := S) c =
    match prometheus.firstRefusal observations with
    | Some err => Go.Panic err
    | None => Go.Done observations
    end ∧
  (∀ err,
     prometheus.firstRefusal observations = Some err ↔
     ∃ before m after,
       observations = before ++ m :: after ∧
       Forall (λ m', prometheus.refusal m' = None) before ∧
       prometheus.refusal m = Some err) ∧
  (Forall (λ h, metrics.ApplicationId h = "") batch →
   HttpStartStopCollector.Collect (S := S) c = Go.Done []) ∧
  (¬ Forall (λ h, metrics.ApplicationId h = "") batch →
   (∃ out, HttpStartStopCollector.Collect (S := S) c = Go.Done out) ↔
   accepted c ∧ labelled applications).
Proof.
  intros c batch applications observations.
  pose proof (Collect_outcome c) as Hout. simpl in Hout.
  fold batch applications observations in Hout. split_and!.
  - exact Hout.
  - intros err. rewrite /prometheus.firstRefusal. clear Hout.
    induction observations as [|m ms IH]; simpl.
    { split; [done|]. intros (before & m & after & Heq & _). by destruct before. }
    destruct (prometheus.refusal m) as [err'|] eqn:Hm; simpl.
    + split.
      * intros [= ->]. by exists [], m, ms.
      * intros ([|m' before] & m'' & after & Heq & Hbefore & Hrefused).
        -- simplify_eq/=. congruence.
        -- simplify_eq/=. apply Forall_cons in Hbefore as [Hnone _]. congruence.
    + rewrite IH. split.
      * intros (before & m' & after & -> & Hbefore & Hrefused).
        exists (m :: before), m', after. split_and!; [done| |done].
        by apply Forall_cons.
      * intros ([|m' before] & m'' & after & Heq & Hbefore & Hrefused).
        -- by simplify_eq/=.
        -- simplify_eq/=. apply Forall_cons in Hbefore as [_ Hbefore].
           by exists before, m'', after.
  - intros Hall. rewrite Hout /observations /applications.
    rewrite (calculateMetrics_unattributable c batch); [|by apply Forall_forall].
    done.
  - intros Hsome. rewrite Hout. split.
    + intros [out Hdone].
      apply firstRefusal_None_inv.
      * apply noEmptyBranch_calculateMetrics.
      * by apply calculateMetrics_non_empty.
      * fold applications observations.
        by destruct (prometheus.firstRefusal observations).
    + intros [Hc Hvals]. exists observations.
      by rewrite /observations (firstRefusal_accepted _ _ _ Hc Hvals).
Qed.

Lemma Collect_Done_inv namespace metricsStore (out : list prometheus.Metric) :
  let c := NewHttpStartStopCollector namespace metricsStore in
  HttpStartStopCollector.Collect (S := S) c = Go.Done out →
  out =
    leaves (HttpStartStopCollector.calculateMetrics c
              (metrics.GetHttpStartStops metricsStore) : Applications S)
      ≫= observationsSent c.
Proof.
  intros c. rewrite Collect_outcome /=.
  destruct (prometheus.firstRefusal _); [done|]. by intros [= <-].
Qed.

Lemma elem_of_observationsSent c (leaf : LeafKey * Method S) (m : prometheus.Metric) :
  m ∈ observationsSent c leaf →
  (∃ desc stream,
     m = summarySent desc stream leaf.1 ∧
     desc ∈ [HttpStartStopCollector.responseSizeBytesDesc c;
             HttpStartStopCollector.clientRequestDurationNanosecondsDesc c;
             HttpStartStopCollector.serverRequestDurationNanosecondsDesc c]) ∨
  (∃ entry,
     m = counterOf (HttpStartStopCollector.requestTotalDesc c) leaf.1 entry ∧
     entry ∈ map_to_list (StatusCodes leaf.2)).
Proof.
  rewrite /observationsSent. intros Hin.
  apply elem_of_cons in Hin as [->|Hin].
  { left. eexists _, _. split; [done|]. set_solver. }
  apply elem_of_cons in Hin as [->|Hin].
  { left. eexists _, _. split; [done|]. set_solver. }
  apply elem_of_cons in Hin as [->|Hin].
  { left. eexists _, _. split; [done|]. set_solver. }
  right. apply list_elem_of_fmap in Hin as (entry & -> & Hentry). by exists entry.
Qed.

(** X5: every observation a cycle of the HTTP collector sends has one of
    the four descriptions that [Describe] announces, and as many label
    values as that description has variable labels. *)
Theorem Collect_sends_what_Describe_announces (namespace : string)
    (metricsStore : metrics.Store) (out : list prometheus.Metric) :
  let c := NewHttpStartStopCollector namespace metricsStore in
  HttpStartStopCollector.Collect (S := S) c = Go.Done out →
  Forall (λ m,
            prometheus.metricDesc m ∈ HttpStartStopCollector.Describe c ∧
            length (prometheus.metricLabelValues m) =
              length (prometheus.variableLabels (prometheus.metricDesc m)))
         out.
Proof.
  intros c ->%Collect_Done_inv. apply Forall_forall.
  intros m ([k method] & Hm & _)%list_elem_of_bind.
  apply elem_of_observationsSent in Hm as [(desc & stream & -> & Hdesc)|(entry & -> & _)].
  - rewrite /HttpStartStopCollector.Describe /=.
    apply elem_of_cons in Hdesc as [->|Hdesc]; [split; [set_solver|done]|].
    apply elem_of_cons in Hdesc as [->|Hdesc]; [split; [set_solver|done]|].
    apply list_elem_of_singleton in Hdesc as ->. split; [set_solver|done].
  - rewrite /HttpStartStopCollector.Describe /=. split; [set_solver|done].
Qed.

Lemma Itoa_inj (i j : Z) : strconv.Itoa i = strconv.Itoa j → i = j.
Proof.
  intros Heq. pose proof (Itoa_decimal i) as Hi. rewrite Heq Itoa_decimal in Hi.
  by injection Hi.
Qed.

Lemma series_of_leaf c (leaf : LeafKey * Method S) (m : prometheus.Metric) :
  m ∈ observationsSent c leaf →
  take 4 (series m).2 = [leaf.1.1.1.1; leaf.1.1.1.2; leaf.1.1.2; leaf.1.2].
Proof.
  by intros [(desc & stream & -> & _)|(entry & -> & _)]%elem_of_observationsSent.
Qed.

Lemma NoDup_series_of_leaf namespace metricsStore (leaf : LeafKey * Method S) :
  let c := NewHttpStartStopCollector namespace metricsStore in
  NoDup (series <$> observationsSent c leaf).
Proof.
  intros c. rewrite /observationsSent fmap_app /=.
  repeat apply NoDup_cons_2.
  - rewrite !not_elem_of_cons. split_and!; [done..|].
    by intros (m & Hm & (entry & -> & _)%list_elem_of_fmap)%list_elem_of_fmap.
  - rewrite !not_elem_of_cons. split_and!; [done..|].
    by intros (m & Hm & (entry & -> & _)%list_elem_of_fmap)%list_elem_of_fmap.
  - by intros (m & Hm & (entry & -> & _)%list_elem_of_fmap)%list_elem_of_fmap.
  - rewrite -list_fmap_compose. apply NoDup_fmap_2_strong; [|apply NoDup_map_to_list].
    intros [code1 n1] [code2 n2] Hin1%elem_of_map_to_list Hin2%elem_of_map_to_list Heq.
    injection Heq as Hcode%Itoa_inj. simpl in *. subst code2. congruence.
Qed.

Lemma fmap_bind_list {A B C : Type} (f : A → list B) (g : B → C) (xs : list A) :
  g <$> (xs ≫= f) = xs ≫= (λ x, g <$> f x).
Proof.
  induction xs as [|x xs IH]; [done|].
  by rewrite !bind_cons fmap_app IH.
Qed.

(** X6: a cycle of the HTTP collector never sends two observations of the
    same time series: no two of them have the same description and the
    same label values. *)
Theorem Collect_sends_each_series_once (namespace : string)
    (metricsStore : metrics.Store) (out : list prometheus.Metric) :
  let c := NewHttpStartStopCollector namespace metricsStore in
  HttpStartStopCollector.Collect (S := S) c = Go.Done out →
  NoDup (series <$> out).
Proof.
  intros c ->%Collect_Done_inv. rewrite fmap_bind_list.
  apply NoDup_bind; [|intros leaf _; apply NoDup_series_of_leaf|apply NoDup_leaves].
  intros [k1 method1] [k2 method2] y Hin1%elem_of_leaves Hin2%elem_of_leaves
    (m1 & -> & Hm1%series_of_leaf)%list_elem_of_fmap
    (m2 & Heq & Hm2%series_of_leaf)%list_elem_of_fmap.
  rewrite Heq Hm2 /= in Hm1.
  destruct k1 as [[[a1 i1] u1] x1], k2 as [[[a2 i2] u2] x2]. simpl in *.
  injection Hm1 as -> -> -> ->. congruence.
Qed.

End Cycle.

(** ** A cycle of the value-metrics collector *)

Section ValueCycle.
Context `{!prometheus.Exposition} `{!utils.Normalizer}.
Implicit Types (c : ValueMetricsCollector.t) (valueMetric : metrics.ValueMetric).

Lemma length_sent_discarded c (batch : list metrics.ValueMetric) :
  (length (omap (sent c) batch) + length (omap (discarded c) batch))%nat =
  length batch.
Proof.
  induction batch as [|valueMetric batch IH]; [done|].
  simpl.
  destruct (sent c valueMetric) eqn:Hsent, (discarded c valueMetric) eqn:Hlog;
    rewrite /sent /discarded in Hsent Hlog;
    destruct (conflict c valueMetric); try done; simpl;
    rewrite -IH ?Nat.add_succ_r; reflexivity.
Qed.

(** X7: a cycle of the value-metrics collector completes, and every value
    metric of the batch is either sent as one gauge or logged in one
    line: the gauges and the log lines together are as many as the value
    metrics. *)
Theorem Collect_sends_or_logs_each_metric c :
  ∃ cycle,
    ValueMetricsCollector.Collect c = Go.Done cycle ∧
    (length (ValueMetricsCollector.ch cycle) +
     length (ValueMetricsCollector.log cycle))%nat =
      length (metrics.GetValueMetrics (ValueMetricsCollector.metricsStore c)) ∧
    (ValueMetricsCollector.log cycle = [] →
     length (ValueMetricsCollector.ch cycle) =
       length (metrics.GetValueMetrics (ValueMetricsCollector.metricsStore c))).
Proof.
  eexists. split; [apply Collect_spec|]. simpl.
  pose proof (length_sent_discarded c
    (metrics.GetValueMetrics (ValueMetricsCollector.metricsStore c))) as Hlen.
  split; [done|]. intros Hlog. rewrite Hlog /= in Hlen. lia.
Qed.

Lemma zip_labels (tags : list (string * string)) :
  zip (utils.NormalizeName <$> tags.*1) tags.*2 =
  (λ tag, (utils.NormalizeName tag.1, tag.2)) <$> tags.
Proof. induction tags as [|tag tags IH]; [done|]. by rewrite /= IH. Qed.

(** X8: the label names and the label values of a gauge are built side by
    side: there are six plus one per tag of each, and the name at a
    position past the sixth is the normalised key of the tag whose value
    stands at that position. *)
Theorem labels_side_by_side valueMetric :
  let names := (ValueMetricsCollector.labels valueMetric).1 in
  let values := (ValueMetricsCollector.labels valueMetric).2 in
  length names = (6 + size (metrics.Tags valueMetric))%nat ∧
  length values = (6 + size (metrics.Tags valueMetric))%nat ∧
  zip (drop 6 names) (drop 6 values) =
    ((λ tag, (utils.NormalizeName tag.1, tag.2)) <$>
       map_to_list (metrics.Tags valueMetric)).
Proof.
  rewrite labels_spec /=. split_and!.
  - by rewrite length_fmap length_fmap length_map_to_list.
  - by rewrite length_fmap length_map_to_list.
  - apply zip_labels.
Qed.

(** X9: the description that [Describe] announces for the value-metrics
    collector is the description of none of the gauges a cycle sends. *)
Theorem Collect_sends_undescribed_gauges (namespace environment : string)
    (metricsStore : metrics.Store) :
  let c := NewValueMetricsCollector namespace environment metricsStore in
  ∃ cycle,
    ValueMetricsCollector.Collect c = Go.Done cycle ∧
    Forall (λ m, prometheus.metricDesc m ∉ ValueMetricsCollector.Describe c)
           (ValueMetricsCollector.ch cycle).
Proof.
  intros c. eexists. split; [apply Collect_spec|]. simpl.
  apply Forall_forall. intros m (valueMetric & _ & Hsent)%list_elem_of_omap.
  rewrite /sent in Hsent. destruct (conflict c valueMetric); [done|].
  injection Hsent as <-.
  by intros [=]%list_elem_of_singleton.
Qed.

Lemma rangeSlice_legacy (namespace : string) (batch : list metrics.ValueMetric) :
  Go.rangeSlice (λ valueMetric,
    m ← prometheus.MustNewConstMetric
           (prometheus.NewDesc
              (prometheus.BuildFQName namespace value_metrics_subsystem
                 (utils.NormalizeName (metrics.Name valueMetric)))
              ("Cloud Foundry firehose '" +:+ metrics.Name valueMetric +:+
               "' value metric.")
              ["origin"; "deployment"; "job"; "index"; "ip"; "unit"]
              ∅)
           prometheus.GaugeValue
           (metrics.Value valueMetric)
           [metrics.Origin valueMetric; metrics.Deployment valueMetric;
            metrics.Job valueMetric; metrics.Index valueMetric;
            metrics.IP valueMetric; metrics.Unit valueMetric];
    mret [m]) batch =
  match prometheus.firstRefusal (legacyGauge namespace <$> batch) with
  | Some err => Go.Panic err
  | None => Go.Done (legacyGauge namespace <$> batch)
  end.
Proof.
  rewrite (rangeSlice_outcome prometheus.refusal _
             (λ valueMetric, [legacyGauge namespace valueMetric])).
  - by rewrite bind_singleton_fmap.
  - intros valueMetric.
    rewrite /prometheus.MustNewConstMetric /prometheus.NewConstMetric
      /prometheus.refusal /legacyGauge /legacyDesc /prometheus.NewDesc /=.
    by destruct (prometheus.validate _ _).
Qed.

(** X10: a cycle of the earlier revision of the value-metrics collector
    sends one gauge per value metric, in batch order, with the labels
    origin, deployment, job, index, ip and unit and no constant label,
    unless the exposition layer refuses one of these gauges: then it
    panics with the error of the first one refused. None is refused
    exactly when the layer reports no error for the description and the
    six label values of every value metric. *)
Theorem valueMetricsCollector_Collect_outcome (namespace : string)
    (c : valueMetricsCollector.t) :
  let batch := metrics.GetValueMetrics (valueMetricsCollector.metricsStore c) in
  valueMetricsCollector.Collect namespace c =
    match prometheus.firstRefusal (legacyGauge namespace <$> batch) with
    | Some err => Go.Panic err
    | None => Go.Done (legacyGauge namespace <$> batch)
    end ∧
  (prometheus.firstRefusal (legacyGauge namespace <$> batch) = None ↔
   Forall (λ valueMetric,
             prometheus.descError (legacyDesc namespace valueMetric) = None ∧
             Forall (λ val, prometheus.labelValueError val = None)
                    [metrics.Origin valueMetric; metrics.Deployment valueMetric;
                     metrics.Job valueMetric; metrics.Index valueMetric;
                     metrics.IP valueMetric; metrics.Unit valueMetric])
          batch).
Proof.
  intros batch. split; [apply rangeSlice_legacy|].
  rewrite /prometheus.firstRefusal head_omap_None Forall_fmap.
  apply Forall_iff. intros valueMetric.
  rewrite /= /prometheus.refusal validate_None /=.
  split; [by intros (? & _ & ?)|by intros [? ?]].
Qed.

End ValueCycle.

(** ** The options of the registry *)

Lemma map_fold_assign (tags labels : gmap string string) :
  map_fold (λ k v m, <[k := v]> m) labels tags = tags ∪ labels.
Proof.
  apply (map_fold_weak_ind
           (λ r (m : gmap string string), r = m ∪ labels)).
  - by rewrite left_id_L.
  - intros k v m r _ ->. by rewrite insert_union_l.
Qed.

Lemma assignAll_allocated (tags labels : gmap string string) :
  loggregator.assignAll tags (Some labels) = Go.Done (Some (tags ∪ labels)).
Proof. by rewrite /loggregator.assignAll map_fold_assign. Qed.

Lemma union_twice (tags labels : gmap string string) :
  tags ∪ (tags ∪ labels) = tags ∪ labels.
Proof.
  apply map_eq. intros k. rewrite !lookup_union.
  by destruct (tags !! k), (labels !! k).
Qed.

(** X11: [WithMetricTags] assigns the tags to the constant labels: on an
    allocated map a label that is a tag gets the tag's value and every
    other label keeps its value, the name and the help text are left
    alone, and the same tags given again change nothing more; on a [nil]
    map it panics, unless there is no tag to assign. *)
Theorem WithMetricTags_overrides (tags : gmap string string) (o : loggregator.Opts) :
  (∀ labels, loggregator.ConstLabels o = Some labels →
     ∃ o',
       loggregator.WithMetricTags tags o = Go.Done o' ∧
       loggregator.ConstLabels o' = Some (tags ∪ labels) ∧
       (∀ k v, tags !! k = Some v → (tags ∪ labels) !! k = Some v) ∧
       (∀ k, tags !! k = None → (tags ∪ labels) !! k = labels !! k) ∧
       loggregator.Name o' = loggregator.Name o ∧
       loggregator.Help o' = loggregator.Help o ∧
       loggregator.WithMetricTags tags o' = Go.Done o') ∧
  (loggregator.ConstLabels o = None →
     loggregator.WithMetricTags tags o =
       if decide (tags = ∅) then Go.Done o
       else Go.Panic "assignment to entry in nil map").
Proof.
  split.
  - intros labels Hlabels. eexists.
    rewrite /loggregator.WithMetricTags Hlabels assignAll_allocated /=.
    split_and!; [done|done| | |done|done|].
    + intros k v Hk. by apply lookup_union_Some_l.
    + intros k Hk. by apply lookup_union_r.
    + by rewrite assignAll_allocated /= union_twice.
  - intros Hnil. rewrite /loggregator.WithMetricTags Hnil /=.
    destruct (decide (tags = ∅)); [|done]. simpl. by destruct o; simplify_eq/=.
Qed.

Lemma applyAll_written (ws : list loggregator.Written) (o : loggregator.Opts)
    (labels : gmap string string) :
  loggregator.ConstLabels o = Some labels →
  loggregator.applyAll o (loggregator.optionOf <$> ws) =
    Go.Done
      {| loggregator.Namespace := loggregator.Namespace o;
         loggregator.Subsystem := loggregator.Subsystem o;
         loggregator.Name := loggregator.Name o;
         loggregator.Help := loggregator.helpOf (loggregator.Help o) ws;
         loggregator.ConstLabels := Some (loggregator.labelsOf labels ws) |}.
Proof.
  revert o labels. induction ws as [|w ws IH]; intros o labels Hlabels.
  { destruct o; simplify_eq/=. done. }
  destruct w as [tags|text]; simpl.
  - rewrite /loggregator.WithMetricTags Hlabels assignAll_allocated /=.
    by rewrite (IH _ (tags ∪ labels)).
  - by rewrite (IH _ labels).
Qed.

(** X12: for options written with [WithMetricTags] and [WithHelpText],
    [toPromOpt] never panics (the map it hands them is allocated) and
    returns the name it was given, an empty namespace and subsystem, the
    last help text written (the default when none is) and, as constant
    labels, every tag with the value written last. *)
Theorem toPromOpt_applies_in_order (p : loggregator.Registry) (name helpText : string)
    (ws : list loggregator.Written) :
  loggregator.toPromOpt p name helpText (loggregator.optionOf <$> ws) =
    Go.Done
      {| loggregator.Namespace := ""; loggregator.Subsystem := "";
         loggregator.Name := name;
         loggregator.Help := loggregator.helpOf helpText ws;
         loggregator.ConstLabels := Some (loggregator.labelsOf ∅ ws) |} ∧
  (∀ text, loggregator.helpOf helpText (ws ++ [loggregator.HelpText text]) = text) ∧
  (∀ tags, loggregator.helpOf helpText (ws ++ [loggregator.Tags tags]) =
           loggregator.helpOf helpText ws) ∧
  (∀ tags k v, tags !! k = Some v →
     loggregator.labelsOf ∅ (ws ++ [loggregator.Tags tags]) !! k = Some v) ∧
  (∀ tags k, tags !! k = None →
     loggregator.labelsOf ∅ (ws ++ [loggregator.Tags tags]) !! k =
     loggregator.labelsOf ∅ ws !! k).
Proof.
  split_and!.
  - by rewrite /loggregator.toPromOpt (applyAll_written _ _ ∅).
  - intros text. by rewrite /loggregator.helpOf foldl_snoc.
  - intros tags. by rewrite /loggregator.helpOf foldl_snoc.
  - intros tags k v Hk. rewrite /loggregator.labelsOf foldl_snoc.
    by apply lookup_union_Some_l.
  - intros tags k Hk. rewrite /loggregator.labelsOf foldl_snoc.
    by apply lookup_union_r.
Qed.

(** X13: [WithDefaultTags] assigns the tags to the default tags of the
    registry: on an allocated map a default tag that is among the tags
    gets the new value and the others keep theirs, the port is left
    alone, and the same tags given again change nothing more; on a [nil]
    map it panics, unless there is no tag to assign. *)
Theorem WithDefaultTags_overrides (tags : gmap string string) (r : loggregator.Registry) :
  (∀ labels, loggregator.defaultTags r = Some labels →
     ∃ r',
       loggregator.WithDefaultTags tags r = Go.Done r' ∧
       loggregator.defaultTags r' = Some (tags ∪ labels) ∧
       (∀ k v, tags !! k = Some v → (tags ∪ labels) !! k = Some v) ∧
       (∀ k, tags !! k = None → (tags ∪ labels) !! k = labels !! k) ∧
       loggregator.Port r' = loggregator.Port r ∧
       loggregator.WithDefaultTags tags r' = Go.Done r') ∧
  (loggregator.defaultTags r = None →
     loggregator.WithDefaultTags tags r =
       if decide (tags = ∅) then Go.Done r
       else Go.Panic "assignment to entry in nil map").
Proof.
  split.
  - intros labels Hlabels. eexists.
    rewrite /loggregator.WithDefaultTags Hlabels assignAll_allocated /=.
    split_and!; [done|done| | |done|].
    + intros k v Hk. by apply lookup_union_Some_l.
    + intros k Hk. by apply lookup_union_r.
    + by rewrite assignAll_allocated /= union_twice.
  - intros Hnil. rewrite /loggregator.WithDefaultTags Hnil /=.
    destruct (decide (tags = ∅)); [|done]. simpl. by destruct r; simplify_eq/=.
Qed.

(** ** The cycle of the HTTP collector at Scenario A *)

Section ScenarioCycle.

#[local] Existing Instance prometheus.checking.

Lemma Collect_httpStartStop :
  HttpStartStopCollector.Collect (S := quantile.Summary) scenarios.httpStartStop =
    Go.Done (leaves scenarios.aggregated ≫= observationsSent scenarios.httpStartStop).
Proof.
  rewrite Collect_outcome.
  by rewrite (firstRefusal_accepted (S := quantile.Summary) "firehose"
                scenarios.store scenarios.aggregated
                accepted_httpStartStop labelled_aggregated).
Qed.

Lemma Collect_sends_what_Describe_announces_witness :
  ∃ out,
    HttpStartStopCollector.Collect (S := quantile.Summary) scenarios.httpStartStop =
      Go.Done out ∧
    Forall (λ m,
              prometheus.metricDesc m ∈
                HttpStartStopCollector.Describe scenarios.httpStartStop ∧
              length (prometheus.metricLabelValues m) =
                length (prometheus.variableLabels (prometheus.metricDesc m)))
           out.
Proof.
  exists (leaves scenarios.aggregated ≫= observationsSent scenarios.httpStartStop).
  split; [exact Collect_httpStartStop|].
  exact (Collect_sends_what_Describe_announces (S := quantile.Summary)
           "firehose" scenarios.store _ Collect_httpStartStop).
Defined.

Lemma Collect_sends_each_series_once_witness :
  ∃ out,
    HttpStartStopCollector.Collect (S := quantile.Summary) scenarios.httpStartStop =
      Go.Done out ∧
    NoDup (series <$> out).
Proof.
  exists (leaves scenarios.aggregated ≫= observationsSent scenarios.httpStartStop).
  split; [exact Collect_httpStartStop|].
  exact (Collect_sends_each_series_once (S := quantile.Summary)
           "firehose" scenarios.store _ Collect_httpStartStop).
Defined.

End ScenarioCycle.
